(** * VersaNES front-end tests: controller-state encoding and square-wave voice

    A shallow embedding of the two test programs of the repository:

    - the keyboard controller test (first program of [src/main.c], window
      title "NES Keyboard Controller Test"), module [ControllerTest];
    - the controller and APU test (second program, window title
      "NES Controller and APU Test"), module [ApuTest].

    Both programs share the text of [setKeyState] and [getControllerState];
    they differ in the binding table of controller 2 and in the audio
    callback, which only the second program has.

    Data model.  [SDL_Keycode] is a 32-bit signed integer, modelled as [Z];
    [uint8_t], [int16_t] and [uint32_t] are [Z] with the conversion written
    out ([to_uint8], [to_int16], [to_uint32]); [double] is the primitive
    IEEE-754 binary64 type [float] of the kernel, so that [+], [-], [/],
    [<] and [>=] round and compare exactly as the C operators do.  The C
    arrays [keyState1], [keyState2] are lists of booleans updated by index. *)

From Stdlib Require Import ZArith Lia Bool List Permutation String Ascii.
From Stdlib Require Import Floats.
From stdpp Require Import base list.

Local Open Scope Z_scope.

(** ** Fixed-width integer conversions *)

Definition to_uint8 (z : Z) : Z := z mod 256.

Definition to_uint32 (z : Z) : Z := z mod 2 ^ 32.

Definition to_int16 (z : Z) : Z := (z + 32768) mod 65536 - 32768.

Definition to_int32 (z : Z) : Z := (z + 2 ^ 31) mod 2 ^ 32 - 2 ^ 31.

(** [size_t] is the 64-bit unsigned type of the Debian targets. *)
Definition to_size_t (z : Z) : Z := z mod 2 ^ 64.

(** ** Control structure and effects *)

(** [for (int i = lo; i < lo + count; ++i) body], threading the state. *)
Fixpoint for_range {St : Type} (lo count : nat) (body : nat -> St -> St) (s : St) : St :=
  match count with
  | O => s
  | S c => for_range (S lo) c body (body lo s)
  end.

(** Computations on a memory [St] that return an [A]. *)
Definition State (St A : Type) : Type := St -> A * St.

Definition ret {St A : Type} (a : A) : State St A := fun s => (a, s).

Definition bind {St A B : Type} (m : State St A) (f : A -> State St B) : State St B :=
  fun s => let (a, s') := m s in f a s'.

Notation "x <- m ;; k" := (bind m (fun x => k))
  (at level 100, m at next level, right associativity).
Notation "m ;; k" := (bind m (fun _ => k))
  (at level 100, right associativity).

(** [if (b) m;] *)
Definition when {St : Type} (b : bool) (m : State St unit) : State St unit :=
  if b then m else ret tt.

(** The same loop in the monad, with the locals of the loop in [a]. *)
Fixpoint for_loop {St A : Type} (lo count : nat) (body : nat -> A -> State St A) (a : A)
    : State St A :=
  match count with
  | O => ret a
  | S c => a' <- body lo a ;; for_loop (S lo) c body a'
  end.

(** ** SDL key codes

    The values of [SDL_keycode.h] (SDL 2): printable keys are their ASCII
    code, the others are their scancode with bit 30 set. *)
Module SDL.
Definition SDLK_SCANCODE_MASK : Z := Z.shiftl 1 30.
Definition SDL_SCANCODE_TO_KEYCODE (x : Z) : Z := Z.lor x SDLK_SCANCODE_MASK.

Definition SDLK_ESCAPE : Z := 27.
Definition SDLK_1 : Z := 49.
Definition SDLK_2 : Z := 50.
Definition SDLK_5 : Z := 53.
Definition SDLK_6 : Z := 54.
Definition SDLK_a : Z := 97.
Definition SDLK_d : Z := 100.
Definition SDLK_f : Z := 102.
Definition SDLK_g : Z := 103.
Definition SDLK_r : Z := 114.
Definition SDLK_s : Z := 115.
Definition SDLK_RIGHT : Z := SDL_SCANCODE_TO_KEYCODE 79.
Definition SDLK_LEFT : Z := SDL_SCANCODE_TO_KEYCODE 80.
Definition SDLK_DOWN : Z := SDL_SCANCODE_TO_KEYCODE 81.
Definition SDLK_UP : Z := SDL_SCANCODE_TO_KEYCODE 82.
Definition SDLK_LCTRL : Z := SDL_SCANCODE_TO_KEYCODE 224.
Definition SDLK_LALT : Z := SDL_SCANCODE_TO_KEYCODE 226.
End SDL.
Import SDL.

(** ** Input state encoder *)

(** [typedef struct { SDL_Keycode key; uint8_t value; const char* label; } KeyMapping;] *)
Record KeyMapping : Type := mkKeyMapping {
  key : Z;
  value : Z;
  label : string
}.

Definition NUM_KEYS : nat := 8.

(** The two global arrays [keyState1] and [keyState2]. *)
Record KeyStates : Type := mkKeyStates {
  keyState1 : list bool;
  keyState2 : list bool
}.

(** [bool keyStateN[NUM_KEYS] = { false };] *)
Definition keyStates_init : KeyStates :=
  {| keyState1 := replicate NUM_KEYS false; keyState2 := replicate NUM_KEYS false |}.

(** [keyMap[i].key == code]; the tables have [NUM_KEYS] entries, so the
    index of the loops below is always in range. *)
Definition key_at (keyMap : list KeyMapping) (i : nat) (code : Z) : bool :=
  match keyMap !! i with
  | Some km => Z.eqb (key km) code
  | None => false
  end.

(** [keyMap[i].value] *)
Definition value_at (keyMap : list KeyMapping) (i : nat) : Z :=
  match keyMap !! i with
  | Some km => value km
  | None => 0
  end.

(** [keyState[i]] *)
Definition pressed_at (keyState : list bool) (i : nat) : bool :=
  match keyState !! i with
  | Some b => b
  | None => false
  end.

(** The values a [bool*] takes in these programs: the address of one of
    the two global arrays. *)
Inductive KeyStatePtr : Type := Ptr_keyState1 | Ptr_keyState2.

Definition deref (p : KeyStatePtr) (mem : KeyStates) : list bool :=
  match p with
  | Ptr_keyState1 => keyState1 mem
  | Ptr_keyState2 => keyState2 mem
  end.

(** [p[i]] as an rvalue. *)
Definition load (p : KeyStatePtr) (i : nat) : State KeyStates bool :=
  fun mem => (pressed_at (deref p mem) i, mem).

(** [p[i] = v;] *)
Definition store (p : KeyStatePtr) (i : nat) (v : bool) : State KeyStates unit :=
  fun mem =>
    (tt,
     match p with
     | Ptr_keyState1 =>
         {| keyState1 := <[i := v]> (keyState1 mem); keyState2 := keyState2 mem |}
     | Ptr_keyState2 =>
         {| keyState1 := keyState1 mem; keyState2 := <[i := v]> (keyState2 mem) |}
     end).

Section Encoder.
(** The binding tables are globals of the program that nothing writes. *)
Variables controller1Keys controller2Keys : list KeyMapping.

(** Body of the loop of [setKeyState]: two independent tests per index,
    one for each controller. *)
Definition setKeyState_body (code : Z) (pressed : bool) (i : nat) (_ : unit)
    : State KeyStates unit :=
  when (key_at controller1Keys i code) (store Ptr_keyState1 i pressed) ;;
  when (key_at controller2Keys i code) (store Ptr_keyState2 i pressed).

(** [void setKeyState(SDL_Keycode code, bool pressed)] *)
Definition setKeyState (code : Z) (pressed : bool) : State KeyStates unit :=
  for_loop 0 NUM_KEYS (setKeyState_body code pressed) tt.
End Encoder.

(** Body of the loop of [getControllerState], with the local
    [uint8_t state] as the accumulator: [if (keyState[i]) state |= keyMap[i].value;] *)
Definition getControllerState_body (keyState : KeyStatePtr) (keyMap : list KeyMapping)
    (i : nat) (state : Z) : State KeyStates Z :=
  b <- load keyState i ;;
  if b then ret (to_uint8 (Z.lor state (value_at keyMap i))) else ret state.

(** [uint8_t getControllerState(bool* keyState, KeyMapping* keyMap)] *)
Definition getControllerState (keyState : KeyStatePtr) (keyMap : list KeyMapping)
    : State KeyStates Z :=
  for_loop 0 NUM_KEYS (getControllerState_body keyState keyMap) 0.

(** The binding tables of the keyboard controller test. *)
Module ControllerTest.
Definition controller1Keys : list KeyMapping :=
  [ mkKeyMapping SDLK_LALT 1 "A";
    mkKeyMapping SDLK_LCTRL 2 "B";
    mkKeyMapping SDLK_5 4 "Select";
    mkKeyMapping SDLK_1 8 "Start";
    mkKeyMapping SDLK_UP 16 "Up";
    mkKeyMapping SDLK_DOWN 32 "Down";
    mkKeyMapping SDLK_LEFT 64 "Left";
    mkKeyMapping SDLK_RIGHT 128 "Right" ].

Definition controller2Keys : list KeyMapping :=
  [ mkKeyMapping SDLK_s 1 "A";
    mkKeyMapping SDLK_a 2 "B";
    mkKeyMapping SDLK_5 4 "Select";
    mkKeyMapping SDLK_1 8 "Start";
    mkKeyMapping SDLK_r 16 "Up";
    mkKeyMapping SDLK_f 32 "Down";
    mkKeyMapping SDLK_d 64 "Left";
    mkKeyMapping SDLK_g 128 "Right" ].

Definition setKeyState := setKeyState controller1Keys controller2Keys.
End ControllerTest.

(** The binding tables of the controller and APU test. *)
Module ApuTest.
Definition controller1Keys : list KeyMapping :=
  [ mkKeyMapping SDLK_LALT 1 "A";
    mkKeyMapping SDLK_LCTRL 2 "B";
    mkKeyMapping SDLK_5 4 "Select";
    mkKeyMapping SDLK_1 8 "Start";
    mkKeyMapping SDLK_UP 16 "Up";
    mkKeyMapping SDLK_DOWN 32 "Down";
    mkKeyMapping SDLK_LEFT 64 "Left";
    mkKeyMapping SDLK_RIGHT 128 "Right" ].

Definition controller2Keys : list KeyMapping :=
  [ mkKeyMapping SDLK_s 1 "A";
    mkKeyMapping SDLK_a 2 "B";
    mkKeyMapping SDLK_6 4 "Select";
    mkKeyMapping SDLK_2 8 "Start";
    mkKeyMapping SDLK_r 16 "Up";
    mkKeyMapping SDLK_f 32 "Down";
    mkKeyMapping SDLK_d 64 "Left";
    mkKeyMapping SDLK_g 128 "Right" ].

Definition setKeyState := setKeyState controller1Keys controller2Keys.
End ApuTest.

(** [lo <= j < lo + n]: the indices a loop from [lo] of [n] rounds visits. *)
Definition in_window (lo n j : nat) : bool :=
  (lo <=? j)%nat && (j <? lo + n)%nat.

(** One round of the loop of [getControllerState] on the contents of the
    array, and the whole loop. *)
Definition register_step (keyState : list bool) (keyMap : list KeyMapping)
    (i : nat) (state : Z) : Z :=
  if pressed_at keyState i then to_uint8 (Z.lor state (value_at keyMap i)) else state.

Definition register_of (keyState : list bool) (keyMap : list KeyMapping) : Z :=
  for_range 0 NUM_KEYS (register_step keyState keyMap) 0.

(** The same round on an index-aligned pair. *)
Definition register_pair_step (state : Z) (p : bool * KeyMapping) : Z :=
  if fst p then to_uint8 (Z.lor state (value (snd p))) else state.

(** The register as the specification words it: the bitwise OR of the
    flag values of the pressed buttons, over the index-aligned pairs. *)
Definition or_of_pressed (pairs : list (bool * KeyMapping)) : Z :=
  foldr Z.lor 0 (map (fun p => value (snd p)) (filter (fun p => fst p = true) pairs)).

(** A table is well typed when every [value] fits its [uint8_t] field. *)
Definition uint8_table (keyMap : list KeyMapping) : Prop :=
  Forall (fun km => 0 <= value km < 256) keyMap.

(** The flag values of the eight buttons A, B, Select, Start, Up, Down,
    Left, Right, which every table of the two programs carries. *)
Definition nes_flags : list Z := [1; 2; 4; 8; 16; 32; 64; 128].

(** The memory after the key bound to "Up" and then the key bound to "A"
    of controller 1 went down, from the initial memory. *)
Definition up_and_a_pressed (setKey : Z -> bool -> State KeyStates unit) : KeyStates :=
  snd (setKey SDLK_LALT true (snd (setKey SDLK_UP true keyStates_init))).

(** The keys of a table, in index order. *)
Definition keys_of (keyMap : list KeyMapping) : list Z := map key keyMap.

(** ** Square-wave synthesizer (controller and APU test only) *)

Definition SAMPLE_RATE : Z := 44100.
Definition BASE_FREQUENCY : Z := 440.
Definition MAX_SEMITONE_STEPS : Z := 16.
Definition AMPLITUDE : Z := 28000.

(** Conversion of a C [int] to [double]; exact on the 32-bit range. *)
Definition double_of_int (z : Z) : float :=
  if z <? 0 then (- of_uint63 (Uint63.of_Z (- z)))%float
  else of_uint63 (Uint63.of_Z z).

(** The file-scope statics of the audio control block. *)
Record AudioState : Type := mkAudioState {
  phase : float;
  waveTimer : Z;
  volumeLevel : Z;
  semitoneStep : Z
}.

Definition audio_init : AudioState :=
  {| phase := 0%float; waveTimer := 0; volumeLevel := 0; semitoneStep := 0 |}.

(** [int numSamples = len / sizeof(int16_t);]: [len] is converted to
    [size_t], divided, and the quotient converted back to [int]. *)
Definition numSamples_of (len : Z) : Z := to_int32 (to_size_t len / 2).

(** [int16_t scaledAmplitude = (AMPLITUDE * volumeLevel) / (MAX_SEMITONE_STEPS - 1);] *)
Definition scaledAmplitude_of (volumeLevel : Z) : Z :=
  to_int16 (Z.quot (AMPLITUDE * volumeLevel) (MAX_SEMITONE_STEPS - 1)).

(** [buffer[i] = (phase < 0.5 ? scaledAmplitude : -scaledAmplitude);] *)
Definition sample_of (scaledAmplitude : Z) (ph : float) : Z :=
  to_int16 (if (ph <? 0.5)%float then scaledAmplitude else - scaledAmplitude).

(** [phase += phaseInc; if (phase >= 1.0) phase -= 1.0;] *)
Definition advance_phase (phaseInc ph : float) : float :=
  let ph' := (ph + phaseInc)%float in
  if (1 <=? ph')%float then (ph' - 1)%float else ph'.

(** Body of the sample loop on the pair (buffer, phase). *)
Definition sample_loop_body (scaledAmplitude : Z) (phaseInc : float)
    (i : nat) (s : list Z * float) : list Z * float :=
  (<[i := sample_of scaledAmplitude (snd s)]> (fst s), advance_phase phaseInc (snd s)).

(** [double phaseInc = frequency / SAMPLE_RATE;] *)
Definition phaseInc_of (frequency : float) : float :=
  (frequency / double_of_int SAMPLE_RATE)%float.

Section Synthesizer.
(** [pow] of the C mathematical library, which the program links to. *)
Variable pow : float -> float -> float.

(** [double frequency = BASE_FREQUENCY * pow(2.0, semitoneStep / 12.0);] *)
Definition frequency_of (step : Z) : float :=
  (double_of_int BASE_FREQUENCY * pow 2 (double_of_int step / 12))%float.

(** [void squareWaveCallback(void* userdata, Uint8* stream, int len)].
    [stream] is the buffer of the audio backend seen as [int16_t] slots;
    the result is the buffer after the call and the new statics. *)
Definition squareWaveCallback (stream : list Z) (len : Z) (st : AudioState)
    : list Z * AudioState :=
  let numSamples := numSamples_of len in
  let frequency := frequency_of (semitoneStep st) in
  let phaseInc := phaseInc_of frequency in
  let scaledAmplitude := scaledAmplitude_of (volumeLevel st) in
  let '(buffer, ph) :=
    for_range 0 (Z.to_nat numSamples)
      (sample_loop_body scaledAmplitude phaseInc) (stream, phase st) in
  (buffer,
   {| phase := ph;
      waveTimer := to_uint32 (waveTimer st + numSamples);
      volumeLevel := Z.rem (volumeLevel st + 1) MAX_SEMITONE_STEPS;
      semitoneStep := Z.rem (semitoneStep st + 1) MAX_SEMITONE_STEPS |}).

(** The states of the statics between callback invocations: the initial
    one, and any state a callback leaves, whatever buffer it was handed. *)
Inductive reachable : AudioState -> Prop :=
| reachable_init : reachable audio_init
| reachable_callback stream len st :
    reachable st -> reachable (snd (squareWaveCallback stream len st)).
End Synthesizer.

(** The phase held by the accumulator when sample [i] of a buffer is
    emitted: [i] wrap steps after the phase the callback started from. *)
Fixpoint phase_at (phaseInc : float) (ph : float) (i : nat) : float :=
  match i with
  | O => ph
  | S j => phase_at phaseInc (advance_phase phaseInc ph) j
  end.

(** The half-open unit interval on [double]. *)
Definition in_unit_interval (x : float) : Prop :=
  (0 <=? x)%float = true /\ (x <? 1)%float = true.

(** The chord of [x^y] through [y = 0] and [y = 1]: a total function that
    agrees with [pow] at these two exponents. *)
Definition pow_chord (x y : float) : float := (1 + y * (x - 1))%float.

(** ** Binary64 values

    [Prim2SF] maps a [float] to its sign, mantissa and exponent; the kernel
    operations are specified on that representation ([add_spec], ...). *)

(** [1.0] is [2^52 * 2^-52]. *)
Definition sf_one : spec_float := S754_finite false 4503599627370496 (-52).

(** The canonical representations of the values of the half-open unit
    interval: a zero, or a positive number of exponent at most [-53]. *)
Definition sf_unit (x : spec_float) : Prop :=
  match x with
  | S754_zero _ => True
  | S754_finite false m e => e <= -53
  | _ => False
  end.

(** The representations of the values that are not below zero. *)
Definition sf_nonneg (x : spec_float) : Prop :=
  match x with
  | S754_zero _ => True
  | S754_finite false _ _ => True
  | S754_infinity false => True
  | _ => False
  end.

(** ** Event handling (both programs)

    The event types of [SDL_events.h]. *)
Module SDLEvents.
Definition SDL_QUIT : Z := 256.
Definition SDL_KEYDOWN : Z := 768.
Definition SDL_KEYUP : Z := 769.
End SDLEvents.
Import SDLEvents.

(** The two fields of [SDL_Event] the programs read: [e->type] and
    [e->key.keysym.sym]. *)
Record SDL_Event : Type := mkEvent {
  type : Z;
  sym : Z
}.

(** The events at which [handleEvents] clears [*running]: a quit request,
    or the escape key going down or up. *)
Definition stops_loop (e : SDL_Event) : bool :=
  (type e =? SDL_QUIT)
  || (((type e =? SDL_KEYDOWN) || (type e =? SDL_KEYUP)) && (sym e =? SDLK_ESCAPE)).

(** The events [handleEvents] hands to [setKeyState]. *)
Definition is_key_event (e : SDL_Event) : bool :=
  (type e =? SDL_KEYDOWN) || (type e =? SDL_KEYUP).

Section EventLoop.
Variables controller1Keys controller2Keys : list KeyMapping.

(** Body of the loop of [handleEvents] on the pair of the key memory and
    of [*running]. *)
Definition handleEvents_body (e : SDL_Event) (s : KeyStates * bool) : KeyStates * bool :=
  if type e =? SDL_QUIT then (fst s, false)
  else if (type e =? SDL_KEYDOWN) || (type e =? SDL_KEYUP) then
    let pressed := type e =? SDL_KEYDOWN in
    let mem := snd (setKeyState controller1Keys controller2Keys (sym e) pressed (fst s)) in
    (mem, if sym e =? SDLK_ESCAPE then false else snd s)
  else s.

(** [void handleEvents(SDL_Event* e, bool* running)]: [queue] holds the
    events [SDL_PollEvent] returns, in order, until it returns 0. *)
Definition handleEvents (queue : list SDL_Event) (s : KeyStates * bool) : KeyStates * bool :=
  foldl (fun s e => handleEvents_body e s) s queue.
End EventLoop.

(** ** Display (the part both programs share, and the keyboard controller
    test in full) *)

Definition WIDTH : Z := 720.
Definition HEIGHT : Z := 480.

(** [SDL_Color], with the alpha field the initialisers leave at zero. *)
Module SDL_Color.
Record t : Type := mk { r : Z; g : Z; b : Z; a : Z }.
End SDL_Color.

Definition white : SDL_Color.t := SDL_Color.mk 255 255 255 0.
Definition green : SDL_Color.t := SDL_Color.mk 0 255 0 0.
Definition red : SDL_Color.t := SDL_Color.mk 255 0 0 0.

(** What the display functions ask of the renderer, in order; a
    [RenderText] stands for one call of [renderText]. *)
Inductive RenderCall : Type :=
| SetRenderDrawColor (r g b a : Z)
| RenderClear
| RenderText (text : string) (x y : Z) (color : SDL_Color.t)
| RenderPresent.

(** [bin[i] = (rawValue & (1 << (7 - i))) ? '1' : '0';] *)
Definition bin_char (rawValue : Z) (i : nat) : ascii :=
  if Z.land rawValue (Z.shiftl 1 (7 - Z.of_nat i)) =? 0 then "0"%char else "1"%char.

(** The string left in [bin1] / [bin2]: eight characters and the NUL. *)
Definition bin_string (rawValue : Z) : string :=
  string_of_list_ascii (map (bin_char rawValue) (seq 0 8)).

(** [keyMap[i].label] *)
Definition label_at (keyMap : list KeyMapping) (i : nat) : string :=
  match keyMap !! i with
  | Some km => label km
  | None => EmptyString
  end.

(** [(rawValue & keyMap[i].value) ? green : red] *)
Definition button_color (rawValue value : Z) : SDL_Color.t :=
  if Z.land rawValue value =? 0 then red else green.

(** [snprintf(buf, size, "<prefix>%s: %s", label, state)]: the formatted
    text, cut to [size - 1] characters. *)
Definition snprintf_label (size : nat) (prefix label state : string) : string :=
  substring 0 (size - 1) (prefix ++ label ++ ": " ++ state)%string.

(** [(c.r == 0 ? "Pressed" : "Released")] *)
Definition state_text (c : SDL_Color.t) : string :=
  if SDL_Color.r c =? 0 then "Pressed"%string else "Released"%string.

Section Display.
Variables controller1Keys controller2Keys : list KeyMapping.

(** The two calls of [renderText] of one round of the loop over the
    buttons, at height [y]. *)
Definition button_lines (rawValue1 rawValue2 : Z) (i : nat) (y : Z) : list RenderCall :=
  let c1 := button_color rawValue1 (value_at controller1Keys i) in
  let c2 := button_color rawValue2 (value_at controller2Keys i) in
  let label1 := snprintf_label 64 "C1 - " (label_at controller1Keys i) (state_text c1) in
  let label2 := snprintf_label 64 "C2 - " (label_at controller2Keys i) (state_text c2) in
  [RenderText label1 10 y c1; RenderText label2 (WIDTH / 2) y c2].

(** Body of the loop over the buttons, on the calls made so far and [y]. *)
Definition render_buttons_body (rawValue1 rawValue2 : Z) (i : nat)
    (s : list RenderCall * Z) : list RenderCall * Z :=
  (fst s ++ button_lines rawValue1 rawValue2 i (snd s), snd s + 20).

(** [renderDetailedInfo] up to the end of the loop over the buttons, which
    is the same text in both programs. *)
Definition render_controllers (rawValue1 rawValue2 : Z) : list RenderCall :=
  fst (for_range 0 NUM_KEYS (render_buttons_body rawValue1 rawValue2)
         ([ SetRenderDrawColor 0 0 0 255;
            RenderClear;
            RenderText "Controller 1:" 10 10 white;
            RenderText (bin_string rawValue1) 200 10 white;
            RenderText "Controller 2:" 10 30 white;
            RenderText (bin_string rawValue2) 200 30 white ], 60)).

(** [void renderDetailedInfo(renderer, font, rawValue1, rawValue2)] of the
    keyboard controller test. *)
Definition renderDetailedInfo (rawValue1 rawValue2 : Z) : list RenderCall :=
  render_controllers rawValue1 rawValue2
  ++ [RenderText "Press ESC to quit" 10 (HEIGHT - 30) white; RenderPresent].

(** The loop of [main] of the keyboard controller test, once [initSDL]
    succeeded: [frames] holds the event queue each call of [handleEvents]
    finds.  The result is what each frame asked of the renderer and the key
    memory at the end; the loop of the model also ends when [frames] does. *)
Fixpoint main_loop (frames : list (list SDL_Event)) (mem : KeyStates) (running : bool)
    : list (list RenderCall) * KeyStates :=
  if running then
    match frames with
    | [] => ([], mem)
    | queue :: rest =>
        let s := handleEvents controller1Keys controller2Keys queue (mem, running) in
        let value1 := fst (getControllerState Ptr_keyState1 controller1Keys (fst s)) in
        let value2 := fst (getControllerState Ptr_keyState2 controller2Keys (fst s)) in
        let shown := main_loop rest (fst s) (snd s) in
        (renderDetailedInfo value1 value2 :: fst shown, snd shown)
    end
  else ([], mem).
End Display.

(** The number a string of binary digits denotes, first digit highest. *)
Definition bin_value (s : string) : Z :=
  foldl (fun acc c => 2 * acc + (if Ascii.eqb c "1"%char then 1 else 0)) 0
    (list_ascii_of_string s).

(** The two facts of the display of a register that are checked value by
    value: it reads back as the register, and shows its bits highest first. *)
Definition bin_string_check (v : Z) : bool :=
  (bin_value (bin_string v) =? v)
  && (if List.list_eq_dec ascii_dec (list_ascii_of_string (bin_string v))
           (map (fun i : nat => if Z.testbit v (7 - Z.of_nat i) then "1"%char else "0"%char)
              (seq 0 8))
      then true else false).

(** ** Sequences of callbacks *)

(** The statics after the audio backend called [squareWaveCallback] once for
    each request, a buffer and its length in bytes, in order. *)
Definition run_callbacks (pow : float -> float -> float)
    (requests : list (list Z * Z)) (st : AudioState) : AudioState :=
  foldl (fun st rq => snd (squareWaveCallback pow (fst rq) (snd rq) st)) st requests.

(** * Properties *)

(** ** Loops *)

Lemma for_loop_succ {St A : Type} (lo c : nat) (body : nat -> A -> State St A) a s :
  for_loop lo (S c) body a s =
  for_loop (S lo) c body (fst (body lo a s)) (snd (body lo a s)).
Proof. cbn [for_loop]. unfold bind. destruct (body lo a s); reflexivity. Qed.

Lemma in_window_zero lo j : in_window lo 0 j = false.
Proof.
  unfold in_window. destruct (Nat.leb_spec lo j), (Nat.ltb_spec j (lo + 0)); simpl; auto; lia.
Qed.

Lemma in_window_succ_ne lo n j :
  j <> lo -> in_window (S lo) n j = in_window lo (S n) j.
Proof.
  intros Hne. unfold in_window.
  destruct (Nat.leb_spec (S lo) j), (Nat.leb_spec lo j),
    (Nat.ltb_spec j (S lo + n)), (Nat.ltb_spec j (lo + S n));
    simpl; auto; lia.
Qed.

Lemma in_window_succ_eq lo n :
  in_window (S lo) n lo = false /\ in_window lo (S n) lo = true.
Proof.
  unfold in_window.
  destruct (Nat.leb_spec (S lo) lo), (Nat.leb_spec lo lo),
    (Nat.ltb_spec lo (S lo + n)), (Nat.ltb_spec lo (lo + S n));
    simpl; auto; lia.
Qed.

Lemma in_window_full j : (j < NUM_KEYS)%nat -> in_window 0 NUM_KEYS j = true.
Proof.
  intros H. unfold in_window.
  destruct (Nat.leb_spec 0 j), (Nat.ltb_spec j (0 + NUM_KEYS)); simpl; auto; lia.
Qed.

(** ** Input state encoder *)

Section EncoderFacts.
Variables controller1Keys controller2Keys : list KeyMapping.
Variables (code : Z) (pressed : bool).

Local Abbreviation body :=
  (setKeyState_body controller1Keys controller2Keys code pressed).

(** One round of the loop writes at most the entry [i] of each array. *)
Lemma setKeyState_round i u mem :
  snd (body i u mem) =
  {| keyState1 := if key_at controller1Keys i code
                  then <[i := pressed]> (keyState1 mem) else keyState1 mem;
     keyState2 := if key_at controller2Keys i code
                  then <[i := pressed]> (keyState2 mem) else keyState2 mem |}.
Proof.
  unfold setKeyState_body, bind, when, store, ret. destruct mem as [k1 k2]; simpl.
  destruct (key_at controller1Keys i code), (key_at controller2Keys i code); reflexivity.
Qed.

(** What one conditional store does to the entry [j] of an array. *)
Lemma lookup_cond_insert (c : bool) (l : list bool) (lo j : nat) :
  (if c then <[lo := pressed]> l else l) !! j =
  (fun b : bool => if Nat.eqb j lo && c then pressed else b) <$> (l !! j).
Proof.
  destruct (Nat.eqb_spec j lo) as [->|Hne]; cbn [andb].
  - destruct c; [|destruct (l !! lo); reflexivity].
    destruct (decide (lo < length l)%nat) as [Hlt|Hge].
    + rewrite list_lookup_insert_eq by assumption.
      destruct (lookup_lt_is_Some_2 l lo Hlt) as [b ->]. reflexivity.
    + rewrite !lookup_ge_None_2; [reflexivity|lia|rewrite length_insert; lia].
  - destruct c; [rewrite list_lookup_insert_ne by auto|];
      destruct (l !! j); reflexivity.
Qed.

Lemma window_round (keyMap : list KeyMapping) (lo n j : nat) (b : bool) :
  (if in_window (S lo) n j && key_at keyMap j code then pressed
   else if Nat.eqb j lo && key_at keyMap lo code then pressed else b) =
  (if in_window lo (S n) j && key_at keyMap j code then pressed else b).
Proof.
  destruct (Nat.eqb_spec j lo) as [->|Hne]; cbn [andb].
  - destruct (in_window_succ_eq lo n) as [-> ->]. reflexivity.
  - rewrite in_window_succ_ne by assumption. reflexivity.
Qed.

(** The loop of [setKeyState] from [lo], entry by entry. *)
Lemma setKeyState_loop n : forall lo u mem j,
  keyState1 (snd (for_loop lo n body u mem)) !! j =
    ((fun b => if in_window lo n j && key_at controller1Keys j code then pressed else b)
       <$> (keyState1 mem !! j)) /\
  keyState2 (snd (for_loop lo n body u mem)) !! j =
    ((fun b => if in_window lo n j && key_at controller2Keys j code then pressed else b)
       <$> (keyState2 mem !! j)).
Proof.
  induction n as [|n IH]; intros lo u mem j.
  - simpl. rewrite in_window_zero. simpl.
    split; [destruct (keyState1 mem !! j)|destruct (keyState2 mem !! j)]; reflexivity.
  - rewrite for_loop_succ.
    destruct (IH (S lo) (fst (body lo u mem)) (snd (body lo u mem)) j) as [IH1 IH2].
    rewrite IH1, IH2, setKeyState_round. cbn [keyState1 keyState2].
    rewrite !lookup_cond_insert.
    split; [destruct (keyState1 mem !! j)|destruct (keyState2 mem !! j)];
      cbn [fmap option_fmap option_map]; rewrite ?window_round; reflexivity.
Qed.
End EncoderFacts.

(** [getControllerState] returns the memory it was given, and its result is
    the loop run on the contents of the array behind the pointer. *)
Lemma getControllerState_loop p keyMap mem n : forall lo acc,
  for_loop lo n (getControllerState_body p keyMap) acc mem =
  (for_range lo n (register_step (deref p mem) keyMap) acc, mem).
Proof.
  induction n as [|n IH]; intros lo acc; [reflexivity|].
  rewrite for_loop_succ. cbn [for_range].
  assert (Hb : getControllerState_body p keyMap lo acc mem
               = (register_step (deref p mem) keyMap lo acc, mem)).
  { unfold getControllerState_body, bind, load, ret, register_step.
    destruct (pressed_at (deref p mem) lo); reflexivity. }
  rewrite Hb. cbn [fst snd]. apply IH.
Qed.

Lemma getControllerState_run p keyMap mem :
  getControllerState p keyMap mem = (register_of (deref p mem) keyMap, mem).
Proof. apply getControllerState_loop. Qed.

Lemma to_uint8_lor a b : to_uint8 (Z.lor a b) = Z.lor (to_uint8 a) (to_uint8 b).
Proof.
  unfold to_uint8. change 256 with (2 ^ 8).
  rewrite <- !Z.land_ones by lia. apply Z.land_lor_distr_l.
Qed.

Lemma to_uint8_small v : 0 <= v < 256 -> to_uint8 v = v.
Proof. intros H. apply Z.mod_small. exact H. Qed.

Lemma to_uint8_idem v : to_uint8 (to_uint8 v) = to_uint8 v.
Proof. unfold to_uint8. apply Z.mod_mod. lia. Qed.

Lemma foldr_lor_perm (l l' : list Z) :
  Permutation l l' -> foldr Z.lor 0 l = foldr Z.lor 0 l'.
Proof.
  induction 1 as [|x l l' _ IH|x y l|l l' l'' _ IH1 _ IH2]; simpl.
  - reflexivity.
  - rewrite IH. reflexivity.
  - rewrite !Z.lor_assoc, (Z.lor_comm y x). reflexivity.
  - congruence.
Qed.

Lemma or_of_pressed_perm pairs pairs' :
  Permutation pairs pairs' -> or_of_pressed pairs = or_of_pressed pairs'.
Proof.
  intros H. unfold or_of_pressed. apply foldr_lor_perm.
  apply Permutation_map. rewrite H. reflexivity.
Qed.

Lemma or_of_pressed_cons b km pairs :
  or_of_pressed ((b, km) :: pairs) =
  if b then Z.lor (value km) (or_of_pressed pairs) else or_of_pressed pairs.
Proof.
  unfold or_of_pressed. rewrite filter_cons. cbn [fst].
  destruct b; [rewrite decide_True by reflexivity|rewrite decide_False by discriminate];
    reflexivity.
Qed.

Lemma foldl_register_pairs pairs : forall acc,
  to_uint8 acc = acc ->
  Forall (fun p : bool * KeyMapping => 0 <= value (snd p) < 256) pairs ->
  foldl register_pair_step acc pairs = Z.lor acc (or_of_pressed pairs).
Proof.
  induction pairs as [|[b km] pairs IH]; intros acc Hacc Hall.
  - simpl. unfold or_of_pressed. simpl. rewrite Z.lor_0_r. reflexivity.
  - apply Forall_cons_1 in Hall. destruct Hall as [Hv Hall]. cbn [snd] in Hv.
    cbn [foldl]. rewrite or_of_pressed_cons.
    unfold register_pair_step at 2. cbn [fst snd]. destruct b.
    + rewrite IH; [|apply to_uint8_idem|assumption].
      rewrite to_uint8_lor, Hacc, (to_uint8_small _ Hv), Z.lor_assoc. reflexivity.
    + apply IH; assumption.
Qed.

Lemma register_of_pairs keyState keyMap :
  length keyState = NUM_KEYS -> length keyMap = NUM_KEYS ->
  register_of keyState keyMap = foldl register_pair_step 0 (zip keyState keyMap).
Proof.
  intros Hs Hm.
  do 9 (destruct keyState as [|? keyState]; try discriminate Hs).
  do 9 (destruct keyMap as [|? keyMap]; try discriminate Hm).
  reflexivity.
Qed.

Lemma uint8_table_zip keyState keyMap :
  uint8_table keyMap ->
  Forall (fun p : bool * KeyMapping => 0 <= value (snd p) < 256) (zip keyState keyMap).
Proof.
  unfold uint8_table. rewrite !Forall_forall. intros H [b km] Hin.
  apply elem_of_zip_r in Hin. cbn [snd] in *. auto.
Qed.

Lemma register_of_or keyState keyMap :
  length keyState = NUM_KEYS -> length keyMap = NUM_KEYS -> uint8_table keyMap ->
  register_of keyState keyMap = or_of_pressed (zip keyState keyMap).
Proof.
  intros Hs Hm Ht. rewrite register_of_pairs by assumption.
  rewrite foldl_register_pairs; [apply Z.lor_0_l|reflexivity|].
  apply uint8_table_zip. exact Ht.
Qed.

Lemma zip_snd_uint8 (keyState : list bool) keyMap :
  length keyState = length keyMap ->
  Forall (fun p : bool * KeyMapping => 0 <= value (snd p) < 256) (zip keyState keyMap) ->
  uint8_table keyMap.
Proof.
  intros Hlen H. unfold uint8_table.
  rewrite <- (snd_zip keyState keyMap) by lia.
  apply Forall_fmap. exact H.
Qed.

Lemma key_at_not_bound keyMap code i :
  code ∉ keys_of keyMap -> key_at keyMap i code = false.
Proof.
  intros Hnot. unfold key_at. destruct (keyMap !! i) as [km|] eqn:E; [|reflexivity].
  apply Z.eqb_neq. intros Heq. apply Hnot. unfold keys_of.
  apply list_elem_of_fmap. exists km. split; [auto|].
  apply list_elem_of_lookup. exists i. exact E.
Qed.

Lemma setKeyState_unbound2 c1 c2 code pressed mem :
  code ∉ keys_of c2 ->
  keyState2 (snd (setKeyState c1 c2 code pressed mem)) = keyState2 mem.
Proof.
  intros Hnot. apply list_eq. intros j.
  destruct (setKeyState_loop c1 c2 code pressed NUM_KEYS 0%nat tt mem j) as [_ H2].
  unfold setKeyState. rewrite H2, key_at_not_bound by assumption.
  rewrite andb_false_r. destruct (keyState2 mem !! j); reflexivity.
Qed.

Lemma setKeyState_unbound1 c1 c2 code pressed mem :
  code ∉ keys_of c1 ->
  keyState1 (snd (setKeyState c1 c2 code pressed mem)) = keyState1 mem.
Proof.
  intros Hnot. apply list_eq. intros j.
  destruct (setKeyState_loop c1 c2 code pressed NUM_KEYS 0%nat tt mem j) as [H1 _].
  unfold setKeyState. rewrite H1, key_at_not_bound by assumption.
  rewrite andb_false_r. destruct (keyState1 mem !! j); reflexivity.
Qed.

Lemma pressed_at_lookup (keyState : list bool) i b :
  keyState !! i = Some b -> pressed_at keyState i = b.
Proof. intros H. unfold pressed_at. rewrite H. reflexivity. Qed.

(** C1: on aligned 8-element sequences [getControllerState] returns the
    bitwise OR of the flag values of the pressed buttons; the result is the
    same for any other order of the eight (pressed, binding) pairs; with no
    button pressed it is 0, with all eight flags pressed it is 255; and on
    controller 1 of either program "Up" and "A" give 17, and 1 once "Up"
    is released. *)
Theorem getControllerState_or_of_pressed
    (p : KeyStatePtr) (keyMap : list KeyMapping) (mem : KeyStates) :
  length (deref p mem) = NUM_KEYS -> length keyMap = NUM_KEYS -> uint8_table keyMap ->
  fst (getControllerState p keyMap mem) = or_of_pressed (zip (deref p mem) keyMap) /\
  (forall p' keyMap' mem',
      length (deref p' mem') = NUM_KEYS -> length keyMap' = NUM_KEYS ->
      Permutation (zip (deref p mem) keyMap) (zip (deref p' mem') keyMap') ->
      fst (getControllerState p' keyMap' mem') = fst (getControllerState p keyMap mem)) /\
  (deref p mem = replicate NUM_KEYS false -> fst (getControllerState p keyMap mem) = 0) /\
  (deref p mem = replicate NUM_KEYS true -> map value keyMap = nes_flags ->
   fst (getControllerState p keyMap mem) = 255) /\
  (fst (getControllerState Ptr_keyState1 ApuTest.controller1Keys
          (up_and_a_pressed ApuTest.setKeyState)) = 17 /\
   fst (getControllerState Ptr_keyState1 ApuTest.controller1Keys
          (snd (ApuTest.setKeyState SDLK_UP false (up_and_a_pressed ApuTest.setKeyState)))) = 1) /\
  (fst (getControllerState Ptr_keyState1 ControllerTest.controller1Keys
          (up_and_a_pressed ControllerTest.setKeyState)) = 17 /\
   fst (getControllerState Ptr_keyState1 ControllerTest.controller1Keys
          (snd (ControllerTest.setKeyState SDLK_UP false
                  (up_and_a_pressed ControllerTest.setKeyState)))) = 1).
Proof.
  intros Hs Hm Ht. rewrite !getControllerState_run. cbn [fst].
  split; [apply register_of_or; assumption|].
  split.
  { intros p' keyMap' mem' Hs' Hm' Hperm. rewrite getControllerState_run. cbn [fst].
    rewrite !register_of_or; try assumption.
    - symmetry. apply or_of_pressed_perm. exact Hperm.
    - apply (zip_snd_uint8 (deref p' mem')); [lia|].
      rewrite <- Hperm. apply uint8_table_zip. exact Ht. }
  split.
  { intros ->. clear Hs Ht.
    do 9 (destruct keyMap as [|? keyMap]; try discriminate Hm). reflexivity. }
  split.
  { intros -> Hflags. clear Hs Ht.
    do 9 (destruct keyMap as [|? keyMap]; try discriminate Hm).
    injection Hflags as H0 H1 H2 H3 H4 H5 H6 H7.
    unfold register_of, register_step, NUM_KEYS, for_range, pressed_at, value_at. simpl.
    rewrite H0, H1, H2, H3, H4, H5, H6, H7. reflexivity. }
  split; split; vm_compute; reflexivity.
Qed.

Lemma getControllerState_or_of_pressed_witness :
  fst (getControllerState Ptr_keyState2 ApuTest.controller2Keys
         (mkKeyStates (replicate NUM_KEYS false) [true; false; true; false; false; false; false; true]))
  = or_of_pressed
      (zip [true; false; true; false; false; false; false; true] ApuTest.controller2Keys).
Proof.
  refine (proj1 (getControllerState_or_of_pressed Ptr_keyState2 ApuTest.controller2Keys
                   (mkKeyStates (replicate NUM_KEYS false)
                      [true; false; true; false; false; false; false; true]) _ _ _)).
  - reflexivity.
  - reflexivity.
  - unfold uint8_table, ApuTest.controller2Keys.
    repeat (apply Forall_cons_2; [simpl; lia|]). constructor.
Defined.

(** C6: [setKeyState] sets entry [i] of a controller's array to the pressed
    flag exactly when that controller's binding [i] has the key, each
    controller on its own test (the Select key of the keyboard controller
    test is bound in both tables and sets both arrays); a key bound in
    neither table leaves both arrays as they were. *)
Theorem setKeyState_updates_matching
    (c1 c2 : list KeyMapping) (code : Z) (pressed : bool) (mem : KeyStates) :
  length (keyState1 mem) = NUM_KEYS -> length (keyState2 mem) = NUM_KEYS ->
  let mem' := snd (setKeyState c1 c2 code pressed mem) in
  (forall i, (i < NUM_KEYS)%nat ->
     keyState1 mem' !! i
       = Some (if key_at c1 i code then pressed else pressed_at (keyState1 mem) i) /\
     keyState2 mem' !! i
       = Some (if key_at c2 i code then pressed else pressed_at (keyState2 mem) i)) /\
  (code ∉ keys_of c1 -> code ∉ keys_of c2 -> mem' = mem) /\
  snd (ControllerTest.setKeyState SDLK_5 true keyStates_init)
    = {| keyState1 := [false; false; true; false; false; false; false; false];
         keyState2 := [false; false; true; false; false; false; false; false] |}.
Proof.
  intros H1 H2 mem'. split; [|split].
  - intros i Hi.
    destruct (setKeyState_loop c1 c2 code pressed NUM_KEYS 0%nat tt mem i) as [L1 L2].
    fold (setKeyState c1 c2 code pressed) in L1, L2. fold mem' in L1, L2.
    rewrite L1, L2, in_window_full by assumption. cbn [andb].
    destruct (lookup_lt_is_Some_2 (keyState1 mem) i ltac:(lia)) as [b1 E1].
    destruct (lookup_lt_is_Some_2 (keyState2 mem) i ltac:(lia)) as [b2 E2].
    rewrite (pressed_at_lookup _ _ _ E1), (pressed_at_lookup _ _ _ E2), E1, E2.
    split; reflexivity.
  - intros N1 N2.
    pose proof (setKeyState_unbound1 c1 c2 code pressed mem N1) as U1.
    pose proof (setKeyState_unbound2 c1 c2 code pressed mem N2) as U2.
    fold mem' in U1, U2. destruct mem' as [a b], mem as [a0 b0]. simpl in *. congruence.
  - vm_compute. reflexivity.
Qed.

Lemma setKeyState_updates_matching_witness :
  keyState1 (snd (ApuTest.setKeyState SDLK_UP true keyStates_init)) !! 4%nat = Some true.
Proof.
  refine (proj1 (proj1 (setKeyState_updates_matching
                          ApuTest.controller1Keys ApuTest.controller2Keys
                          SDLK_UP true keyStates_init _ _) 4%nat _)).
  - reflexivity.
  - reflexivity.
  - unfold NUM_KEYS. lia.
Defined.

(** C7: a transition on a key that controller 1 binds and controller 2
    does not leaves the array of controller 2, and so the register of
    controller 2, as it was. *)
Theorem controller1_key_leaves_controller2
    (c1 c2 : list KeyMapping) (code : Z) (pressed : bool) (mem : KeyStates) :
  code ∈ keys_of c1 -> code ∉ keys_of c2 ->
  keyState2 (snd (setKeyState c1 c2 code pressed mem)) = keyState2 mem /\
  fst (getControllerState Ptr_keyState2 c2 (snd (setKeyState c1 c2 code pressed mem)))
    = fst (getControllerState Ptr_keyState2 c2 mem).
Proof.
  intros _ Hnot.
  pose proof (setKeyState_unbound2 c1 c2 code pressed mem Hnot) as U.
  split; [exact U|].
  rewrite !getControllerState_run. cbn [fst deref]. rewrite U. reflexivity.
Qed.

Lemma controller1_key_leaves_controller2_witness :
  keyState2 (snd (ApuTest.setKeyState SDLK_UP true keyStates_init))
    = keyState2 keyStates_init /\
  fst (getControllerState Ptr_keyState2 ApuTest.controller2Keys
         (snd (ApuTest.setKeyState SDLK_UP true keyStates_init)))
    = fst (getControllerState Ptr_keyState2 ApuTest.controller2Keys keyStates_init).
Proof.
  apply (controller1_key_leaves_controller2
           ApuTest.controller1Keys ApuTest.controller2Keys SDLK_UP true keyStates_init).
  - apply (bool_decide_unpack _). vm_compute. reflexivity.
  - apply (bool_decide_unpack _). vm_compute. reflexivity.
Defined.

(** C8, as the code has it: the two tables of the controller and APU test
    hold 16 pairwise distinct keys; each table of the keyboard controller
    test holds 8 distinct keys, and its two tables share exactly the Select
    key [5] and the Start key [1], 14 distinct keys in all. *)
Theorem binding_keys_distinct :
  NoDup (keys_of ApuTest.controller1Keys ++ keys_of ApuTest.controller2Keys) /\
  length (keys_of ApuTest.controller1Keys ++ keys_of ApuTest.controller2Keys) = 16%nat /\
  NoDup (keys_of ControllerTest.controller1Keys) /\
  NoDup (keys_of ControllerTest.controller2Keys) /\
  list_intersection (keys_of ControllerTest.controller1Keys)
    (keys_of ControllerTest.controller2Keys) = [SDLK_5; SDLK_1] /\
  length (remove_dups (keys_of ControllerTest.controller1Keys
                         ++ keys_of ControllerTest.controller2Keys)) = 14%nat.
Proof.
  repeat split; try (vm_compute; reflexivity);
    apply (bool_decide_unpack _); vm_compute; reflexivity.
Qed.

(** C8 as stated fails on the keyboard controller test: its two tables do
    not hold 16 pairwise distinct keys. *)
Lemma controller_test_keys_overlap :
  ~ NoDup (keys_of ControllerTest.controller1Keys ++ keys_of ControllerTest.controller2Keys).
Proof.
  apply (bool_decide_unpack _). vm_compute. reflexivity.
Qed.

(** ** Binary64 arithmetic

    Facts on the rounding of [SpecFloat], by which the kernel operations on
    [float] are specified. *)

Lemma fexp64 z : fexp prec emax z = Z.max (z - 53) (-1074).
Proof. reflexivity. Qed.

Lemma digits2_pos_size p : digits2_pos p = Pos.size p.
Proof. induction p; simpl; congruence. Qed.

Lemma digits2_pos_gt p : Zpos p < 2 ^ Zpos (digits2_pos p).
Proof.
  rewrite digits2_pos_size.
  pose proof (Pos.size_gt p) as H.
  apply Pos2Z.pos_lt_pos in H. rewrite Pos2Z.inj_pow in H. exact H.
Qed.

Lemma digits2_pos_le p : 2 ^ Zpos (digits2_pos p) <= 2 * Zpos p.
Proof.
  rewrite digits2_pos_size.
  pose proof (Pos.size_le p) as H.
  apply Pos2Z.pos_le_pos in H. rewrite Pos2Z.inj_pow in H. exact H.
Qed.

Lemma digits2_pos_bound p k : 0 <= k -> Zpos p < 2 ^ k -> Zpos (digits2_pos p) <= k.
Proof.
  intros Hk Hp.
  pose proof (digits2_pos_le p) as Hle.
  assert (H : 2 ^ Zpos (digits2_pos p) < 2 ^ (k + 1)).
  { rewrite Z.pow_add_r by lia. lia. }
  apply Z.pow_lt_mono_r_iff in H; lia.
Qed.

Lemma Zdigits2_bound m k : 0 <= m -> 0 <= k -> m < 2 ^ k -> Zdigits2 m <= k.
Proof.
  intros Hm Hk Hlt. destruct m as [|p|p]; simpl; [lia| |lia].
  apply digits2_pos_bound; assumption.
Qed.

Lemma iter_pos_nat {A} (f : A -> A) n x :
  SpecFloat.iter_pos f n x = Nat.iter (Pos.to_nat n) f x.
Proof.
  revert x. induction n as [n IH|n IH|]; intros x; cbn [SpecFloat.iter_pos].
  - rewrite !IH. rewrite Pos2Nat.inj_xI.
    rewrite <- Nat.iter_add. rewrite <- Nat.iter_succ_r. f_equal. lia.
  - rewrite !IH. rewrite Pos2Nat.inj_xO.
    rewrite <- Nat.iter_add. f_equal. lia.
  - reflexivity.
Qed.

Lemma shr_1_m mrs : 0 <= shr_m mrs -> shr_m (shr_1 mrs) = shr_m mrs / 2.
Proof.
  destruct mrs as [m r s]; simpl. intros Hm.
  rewrite <- Z.div2_div.
  destruct m as [|[p|p|]|p]; try reflexivity; lia.
Qed.

Lemma shr_1_r mrs : 0 <= shr_m mrs -> shr_r (shr_1 mrs) = Z.odd (shr_m mrs).
Proof.
  destruct mrs as [m r s]; simpl. intros Hm.
  destruct m as [|[p|p|]|p]; try reflexivity; lia.
Qed.

Lemma shr_1_s mrs : shr_s (shr_1 mrs) = shr_r mrs || shr_s mrs.
Proof.
  destruct mrs as [m r s]; simpl.
  destruct m as [|[p|p|]|[p|p|]]; reflexivity.
Qed.

Lemma shr_iter_spec k m :
  0 <= m ->
  let mrs := Nat.iter k shr_1 (Build_shr_record m false false) in
  shr_m mrs = m / 2 ^ Z.of_nat k /\
  (m mod 2 ^ Z.of_nat k = 0 -> shr_r mrs = false /\ shr_s mrs = false).
Proof.
  intros Hm. induction k as [|k IH].
  - simpl. rewrite Z.div_1_r. auto.
  - cbn zeta in *. rewrite Nat.iter_succ.
    destruct IH as [IHm IHe].
    set (mrs := Nat.iter k shr_1 _) in *.
    assert (Hpos : 0 <= shr_m mrs).
    { rewrite IHm. apply Z.div_pos; [lia|]. apply Z.pow_pos_nonneg; lia. }
    assert (Hpow : 2 ^ Z.of_nat (S k) = 2 ^ Z.of_nat k * 2).
    { rewrite Nat2Z.inj_succ, Z.pow_succ_r by lia. lia. }
    assert (Hk : 0 < 2 ^ Z.of_nat k) by (apply Z.pow_pos_nonneg; lia).
    split.
    + rewrite shr_1_m, IHm, Hpow by assumption.
      rewrite Z.div_div by lia. reflexivity.
    + intros Hmod. rewrite shr_1_r, shr_1_s by assumption.
      rewrite Hpow in Hmod.
      apply Z.mod_divide in Hmod; [|lia]. destruct Hmod as [c Hc].
      assert (Hmk : m mod 2 ^ Z.of_nat k = 0).
      { apply Z.mod_divide; [lia|]. exists (c * 2). lia. }
      destruct (IHe Hmk) as [-> ->]. split; [|reflexivity].
      rewrite IHm. replace m with ((c * 2) * 2 ^ Z.of_nat k) by lia.
      rewrite Z.div_mul by lia. rewrite Z.mul_comm. apply Z.odd_even.
Qed.

Lemma shr_exact_spec m e n :
  0 <= m ->
  let k := Z.max n 0 in
  let r := shr (Build_shr_record m false false) e n in
  shr_m (fst r) = m / 2 ^ k /\ snd r = e + k /\
  (m mod 2 ^ k = 0 -> loc_of_shr_record (fst r) = loc_Exact).
Proof.
  intros Hm. destruct n as [|p|p]; cbn zeta; unfold shr.
  - simpl. rewrite Z.div_1_r. repeat split; lia.
  - rewrite iter_pos_nat. cbn [fst snd].
    pose proof (shr_iter_spec (Pos.to_nat p) m Hm) as H. cbn zeta in H.
    rewrite positive_nat_Z in H. destruct H as [H1 H2].
    replace (Z.max (Z.pos p) 0) with (Z.pos p) by lia.
    repeat split; [exact H1|].
    intros Hmod. destruct (H2 Hmod) as [Hr Hs].
    destruct (Nat.iter _ _ _) as [m' r' s']. simpl in *. subst. reflexivity.
  - simpl. rewrite Z.div_1_r. repeat split; lia.
Qed.

Lemma round_nearest_even_bounds q l :
  q <= round_nearest_even q l <= q + 1 /\
  (l = loc_Exact -> round_nearest_even q l = q).
Proof.
  destruct l as [|[| |]]; simpl; try (split; [lia|auto]; fail).
  - destruct (Z.even q); split; try lia; discriminate.
  - split; [lia | discriminate].
Qed.

Lemma round_bound_arith m K k m1 :
  0 <= k <= K -> 0 <= m -> m <= (2 ^ 53 - 1) * 2 ^ K ->
  m / 2 ^ k <= m1 <= m / 2 ^ k + 1 ->
  (m mod 2 ^ k = 0 -> m1 = m / 2 ^ k) ->
  0 <= m1 < 2 ^ (53 + K - k).
Proof.
  intros Hk Hm Hle Hm1 Hex.
  replace (53 + K - k) with (53 + (K - k)) by lia.
  rewrite Z.pow_add_r by lia.
  replace K with ((K - k) + k) in Hle by lia.
  rewrite Z.pow_add_r in Hle by lia.
  assert (HA : 0 < 2 ^ k) by (apply Z.pow_pos_nonneg; lia).
  assert (HB : 0 < 2 ^ (K - k)) by (apply Z.pow_pos_nonneg; lia).
  set (A := 2 ^ k) in *. set (B := 2 ^ (K - k)) in *.
  set (C := 2 ^ 53) in *. assert (HC : 2 <= C) by (subst C; lia).
  pose proof (Z.div_mod m A ltac:(lia)) as Hdm.
  pose proof (Z.mod_pos_bound m A HA) as Hr.
  set (q := m / A) in *. set (r := m mod A) in *.
  assert (Hq0 : 0 <= q) by nia.
  assert (Hq : q <= (C - 1) * B) by nia.
  split; [lia|].
  destruct (Z.eq_dec q ((C - 1) * B)) as [Heq|Hne].
  - assert (r = 0) by nia. rewrite (Hex H). nia.
  - nia.
Qed.

Lemma binary_round_aux_bound T (m : positive) e :
  -1074 <= T <= 971 -> e <= T -> Zpos m <= (2 ^ 53 - 1) * 2 ^ (T - e) ->
  binary_round_aux prec emax false (Zpos m) e loc_Exact = S754_zero false \/
  exists m' e',
    binary_round_aux prec emax false (Zpos m) e loc_Exact = S754_finite false m' e'
    /\ e' <= T.
Proof.
  intros HT He Hm.
  assert (Hd : Zpos (digits2_pos m) <= 53 + T - e).
  { apply digits2_pos_bound; [lia|].
    replace (53 + T - e) with (53 + (T - e)) by lia. rewrite Z.pow_add_r by lia.
    assert (0 < 2 ^ (T - e)) by (apply Z.pow_pos_nonneg; lia). nia. }
  unfold binary_round_aux, shr_fexp. rewrite fexp64.
  cbn [shr_record_of_loc Zdigits2].
  set (n := Z.max (Zpos (digits2_pos m) + e - 53) (-1074) - e).
  pose proof (shr_exact_spec (Zpos m) e n ltac:(lia)) as H. cbn zeta in H.
  destruct (shr _ e n) as [mrs' e']. cbn [fst snd] in H.
  destruct H as (Hq & He' & Hex).
  set (k := Z.max n 0) in *.
  assert (Hk : 0 <= k <= T - e) by lia.
  pose proof (round_nearest_even_bounds (shr_m mrs') (loc_of_shr_record mrs')) as [Hb Hbe].
  set (m1 := round_nearest_even _ _) in *.
  assert (Hm1 : 0 <= m1 < 2 ^ (53 + (T - e) - k)).
  { apply (round_bound_arith (Zpos m)); try lia.
    intros Hmod. rewrite <- Hq. auto. }
  rewrite fexp64.
  set (n2 := Z.max (Zdigits2 m1 + e' - 53) (-1074) - e').
  pose proof (shr_exact_spec m1 e' n2 ltac:(lia)) as H. cbn zeta in H.
  destruct (shr _ e' n2) as [mrs'' e'']. cbn [fst snd] in H.
  destruct H as (Hq2 & He'' & _).
  assert (Hd1 : Zdigits2 m1 <= 53 + T - e').
  { apply Zdigits2_bound; try lia.
    replace (53 + T - e') with (53 + (T - e) - k) by lia. lia. }
  assert (Hfin : e'' <= T) by lia.
  assert (Hnn : 0 <= shr_m mrs'').
  { rewrite Hq2. apply Z.div_pos; [lia|]. apply Z.pow_pos_nonneg; lia. }
  destruct (shr_m mrs'') as [|p|p]; [left; reflexivity| |lia].
  right. exists p, e''.
  replace (e'' <=? emax - prec) with true; [auto|].
  symmetry. apply Z.leb_le. unfold emax, prec. lia.
Qed.

Lemma iter_xO_pow m d : Zpos (Pos.iter xO m d) = Zpos m * 2 ^ Zpos d.
Proof.
  induction d as [|d IH] using Pos.peano_ind.
  - simpl. lia.
  - rewrite Pos.iter_succ, Pos2Z.inj_xO, IH, Pos2Z.inj_succ, Z.pow_succ_r by lia. lia.
Qed.

Lemma shl_align_spec m e e' :
  let r := shl_align m e e' in
  snd r = Z.min e e' /\ Zpos (fst r) = Zpos m * 2 ^ (e - snd r).
Proof.
  unfold shl_align. destruct (e' - e) as [|d|d] eqn:Hd; cbn [fst snd].
  - replace (Z.min e e') with e by lia. rewrite Z.sub_diag. simpl. lia.
  - replace (Z.min e e') with e by lia. rewrite Z.sub_diag. simpl. lia.
  - replace (Z.min e e') with e' by lia. split; [reflexivity|].
    rewrite iter_xO_pow. do 2 f_equal. lia.
Qed.

Lemma binary_round_bound (m : positive) e :
  e <= -53 -> Zpos m <= (2 ^ 53 - 1) * 2 ^ (-52 - e) ->
  binary_round prec emax false m e = S754_zero false \/
  exists m' e',
    binary_round prec emax false m e = S754_finite false m' e' /\ e' <= -52.
Proof.
  intros He Hm. unfold binary_round.
  pose proof (shl_align_spec m e (fexp prec emax (Zpos (digits2_pos m) + e))) as H.
  cbn zeta in H. destruct (shl_align _ _ _) as [mz ez]. cbn [fst snd] in H.
  destruct H as [Hez Hmz].
  apply (binary_round_aux_bound (-52)); [lia|lia|].
  rewrite Hmz.
  replace (-52 - ez) with ((-52 - e) + (e - ez)) by lia.
  rewrite Z.pow_add_r by lia.
  assert (0 < 2 ^ (e - ez)) by (apply Z.pow_pos_nonneg; lia).
  nia.
Qed.

Lemma bounded_digits m e : bounded prec emax m e = true -> Zpos (digits2_pos m) <= 53.
Proof.
  unfold bounded, canonical_mantissa. rewrite fexp64.
  intros H. apply andb_prop in H. destruct H as [H _].
  apply Z.eqb_eq in H. lia.
Qed.

Lemma bounded_mantissa m e : bounded prec emax m e = true -> Zpos m <= 2 ^ 53 - 1.
Proof.
  intros H. apply bounded_digits in H.
  pose proof (digits2_pos_gt m) as Hgt.
  assert (2 ^ Zpos (digits2_pos m) <= 2 ^ 53) by (apply Z.pow_le_mono_r; lia).
  lia.
Qed.

Lemma SFadd_unit x y :
  valid_binary x = true -> valid_binary y = true ->
  sf_unit x -> sf_unit y ->
  match SF64add x y with
  | S754_zero _ => True
  | S754_finite false m e => e <= -52
  | _ => False
  end.
Proof.
  intros Vx Vy Ux Uy.
  destruct x as [sx| | |[|] mx ex]; try contradiction;
  destruct y as [sy| | |[|] my ey]; try contradiction; cbn in Ux, Uy.
  - unfold SF64add, SFadd. destruct sx, sy; exact I.
  - cbn. lia.
  - cbn. lia.
  - cbn in Vx, Vy. apply bounded_mantissa in Vx, Vy.
    unfold SF64add, SFadd. cbn zeta. cbn [cond_Zopp].
    pose proof (shl_align_spec mx ex (Z.min ex ey)) as Hx.
    pose proof (shl_align_spec my ey (Z.min ex ey)) as Hy.
    cbn zeta in Hx, Hy.
    destruct (shl_align mx _ _) as [px qx]. destruct (shl_align my _ _) as [py qy].
    cbn [fst snd] in *. destruct Hx as [Hqx Hpx]. destruct Hy as [Hqy Hpy].
    set (ez := Z.min ex ey) in *.
    change (Z.pos px + Z.pos py) with (Z.pos (px + py)).
    cbn [binary_normalize].
    assert (Hb : Zpos (px + py) <= (2 ^ 53 - 1) * 2 ^ (-52 - ez)).
    { rewrite Pos2Z.inj_add, Hpx, Hpy.
      replace qx with ez by lia. replace qy with ez by lia.
      replace (-52 - ez) with (1 + (-53 - ez)) by lia.
      rewrite Z.pow_add_r by lia.
      assert (2 ^ (ex - ez) <= 2 ^ (-53 - ez)) by (apply Z.pow_le_mono_r; lia).
      assert (2 ^ (ey - ez) <= 2 ^ (-53 - ez)) by (apply Z.pow_le_mono_r; lia).
      assert (0 < 2 ^ (ex - ez)) by (apply Z.pow_pos_nonneg; lia).
      assert (0 < 2 ^ (ey - ez)) by (apply Z.pow_pos_nonneg; lia).
      change (2 ^ 1) with 2. nia. }
    destruct (binary_round_bound (px + py) ez ltac:(lia) Hb) as [->|(m' & e' & -> & He')].
    + exact I.
    + exact He'.
Qed.

Lemma bounded_normal_52 m :
  bounded prec emax m (-52) = true -> 2 ^ 52 <= Zpos m <= 2 ^ 53 - 1.
Proof.
  intros H. split; [|exact (bounded_mantissa _ _ H)].
  unfold bounded, canonical_mantissa in H. rewrite fexp64 in H.
  apply andb_prop in H. destruct H as [H _]. apply Z.eqb_eq in H.
  assert (Hd : Zpos (digits2_pos m) = 53) by lia.
  pose proof (digits2_pos_le m) as Hle. rewrite Hd in Hle. lia.
Qed.

Lemma SFsub_one_unit m :
  bounded prec emax m (-52) = true ->
  sf_unit (SF64sub (S754_finite false m (-52)) sf_one).
Proof.
  intros Hb. apply bounded_normal_52 in Hb.
  unfold SF64sub, SFsub, sf_one. cbn zeta.
  change (Z.min (-52) (-52)) with (-52).
  change (shl_align m (-52) (-52)) with (m, -52).
  change (shl_align 4503599627370496 (-52) (-52)) with (4503599627370496%positive, -52).
  cbn [fst cond_Zopp].
  destruct (Z.pos m - 4503599627370496) as [|p|p] eqn:Hp; cbn [binary_normalize].
  - exact I.
  - assert (Hp52 : Zpos p < 2 ^ 52) by lia.
    assert (Hd : Zpos (digits2_pos p) <= 52) by (apply digits2_pos_bound; lia).
    unfold binary_round.
    pose proof (shl_align_spec p (-52) (fexp prec emax (Zpos (digits2_pos p) + -52))) as H.
    cbn zeta in H. destruct (shl_align _ _ _) as [mz ez]. cbn [fst snd] in H.
    rewrite fexp64 in H. destruct H as [Hez Hmz].
    assert (Hez' : ez = Zpos (digits2_pos p) - 105) by lia.
    assert (Hmzb : Zpos mz <= 2 ^ 53 - 1).
    { rewrite Hmz. pose proof (digits2_pos_gt p) as Hgt.
      replace (-52 - ez) with (53 - Zpos (digits2_pos p)) by lia.
      assert (Hpw : 2 ^ Zpos (digits2_pos p) * 2 ^ (53 - Zpos (digits2_pos p)) = 2 ^ 53).
      { rewrite <- Z.pow_add_r by lia. f_equal. lia. }
      assert (0 < 2 ^ (53 - Zpos (digits2_pos p))) by (apply Z.pow_pos_nonneg; lia).
      nia. }
    destruct (binary_round_aux_bound (-53) mz ez ltac:(lia) ltac:(lia)) as [->|(m' & e' & -> & He')].
    + assert (1 <= 2 ^ (-53 - ez)) by (apply (Z.pow_le_mono_r 2 0); lia). nia.
    + exact I.
    + exact He'.
  - lia.
Qed.

Lemma sf_unit_iff x :
  in_unit_interval x <-> sf_unit (Prim2SF x).
Proof.
  unfold in_unit_interval. rewrite leb_spec, ltb_spec.
  change (Prim2SF 0) with (S754_zero false). change (Prim2SF 1) with sf_one.
  pose proof (Prim2SF_valid x) as V.
  destruct (Prim2SF x) as [s|s| |s m e];
    cbv [SFleb SFltb SFcompare sf_one sf_unit valid_binary] in *.
  - tauto.
  - destruct s; intuition discriminate.
  - intuition discriminate.
  - destruct s; [intuition discriminate|].
    destruct (Z.compare_spec e (-52)) as [He|He|He].
    + subst e. apply bounded_normal_52 in V. split; [|lia].
      intros [_ H]. exfalso.
      destruct (Pos.compare_cont Eq m 4503599627370496) eqn:Hc; try discriminate.
      pose proof (proj1 (Pos.compare_lt_iff m _) Hc) as Hlt.
      apply Pos2Z.pos_lt_pos in Hlt. change (2 ^ 52) with 4503599627370496 in V. lia.
    + split; [lia|auto].
    + split; [intros [_ ?]; discriminate|lia].
Qed.

Lemma advance_phase_unit phaseInc ph :
  in_unit_interval ph -> in_unit_interval phaseInc ->
  in_unit_interval (advance_phase phaseInc ph).
Proof.
  rewrite !sf_unit_iff. intros Hph Hinc. unfold advance_phase. cbn zeta.
  rewrite leb_spec. change (Prim2SF 1) with sf_one.
  pose proof (SFadd_unit _ _ (Prim2SF_valid ph) (Prim2SF_valid phaseInc) Hph Hinc) as Hs.
  rewrite <- add_spec in Hs.
  pose proof (Prim2SF_valid (ph + phaseInc)) as V.
  destruct (Prim2SF (ph + phaseInc)) as [s|s| |s m e] eqn:E; try contradiction.
  - cbv [SFleb SFcompare sf_one]. rewrite E. exact I.
  - destruct s; [contradiction|].
    cbv [valid_binary] in V. cbv [SFleb SFcompare sf_one].
    destruct (Z.compare_spec (-52) e) as [He|He|He].
    + subst e. pose proof (bounded_normal_52 _ V) as Hm.
      destruct (Pos.compare_cont Eq 4503599627370496 m) eqn:Hc.
      * rewrite sub_spec, E. apply SFsub_one_unit; assumption.
      * rewrite sub_spec, E. apply SFsub_one_unit; assumption.
      * pose proof (proj1 (Pos.compare_gt_iff _ m) Hc) as Hlt.
        apply Pos2Z.pos_lt_pos in Hlt. change (2 ^ 52) with 4503599627370496 in Hm. lia.
    + lia.
    + rewrite E. cbv [sf_unit]. lia.
Qed.

(** The extreme case: from the largest phase below 1.0, with the largest
    increment below 1.0, the sum is [2 - 2^-52] and one subtraction brings
    it back to [1 - 2^-52]. *)
Example advance_phase_extreme :
  advance_phase (next_down 1) (next_down 1) = next_down (next_down 1) /\
  (next_down (next_down 1) <? 1)%float = true.
Proof. split; vm_compute; reflexivity. Qed.

(** Rounding keeps the sign it is given and never yields a NaN. *)
Lemma shr_record_of_loc_m m l : shr_m (shr_record_of_loc m l) = m.
Proof. destruct l as [|[| |]]; reflexivity. Qed.

Lemma shr_nonneg mrs e n : 0 <= shr_m mrs -> 0 <= shr_m (fst (shr mrs e n)).
Proof.
  intros Hm. unfold shr. destruct n as [|p|p]; cbn [fst]; try assumption.
  rewrite iter_pos_nat. induction (Pos.to_nat p) as [|k IH]; [exact Hm|].
  rewrite Nat.iter_succ, shr_1_m by assumption.
  apply Z.div_pos; lia.
Qed.

Lemma binary_round_aux_sign sx m e l :
  0 <= m ->
  match binary_round_aux prec emax sx m e l with
  | S754_zero s | S754_infinity s | S754_finite s _ _ => s = sx
  | S754_nan => False
  end.
Proof.
  intros Hm. unfold binary_round_aux, shr_fexp.
  pose proof (shr_nonneg (shr_record_of_loc m l) e
                (fexp prec emax (Zdigits2 m + e) - e)) as H1.
  rewrite shr_record_of_loc_m in H1. specialize (H1 Hm).
  destruct (shr (shr_record_of_loc m l) e _) as [mrs' e']. cbn [fst] in H1.
  pose proof (round_nearest_even_bounds (shr_m mrs') (loc_of_shr_record mrs')) as [Hb _].
  set (m1 := round_nearest_even _ _) in *.
  pose proof (shr_nonneg (shr_record_of_loc m1 loc_Exact) e'
                (fexp prec emax (Zdigits2 m1 + e') - e')) as H2.
  rewrite shr_record_of_loc_m in H2. specialize (H2 ltac:(lia)).
  destruct (shr (shr_record_of_loc m1 loc_Exact) e' _) as [mrs'' e'']. cbn [fst] in H2.
  destruct (shr_m mrs'') as [|q|q]; [reflexivity| |lia].
  destruct (e'' <=? emax - prec); reflexivity.
Qed.

Lemma sf_nonneg_iff x : (0 <=? x)%float = true <-> sf_nonneg (Prim2SF x).
Proof.
  rewrite leb_spec. change (Prim2SF 0) with (S754_zero false).
  destruct (Prim2SF x) as [s|s| |s m e]; cbv [SFleb SFcompare sf_nonneg].
  - tauto.
  - destruct s; intuition discriminate.
  - intuition discriminate.
  - destruct s; intuition discriminate.
Qed.

Lemma SFmul_nonneg mx ex y :
  sf_nonneg y -> sf_nonneg (SF64mul (S754_finite false mx ex) y).
Proof.
  destruct y as [sy|[|]| |[|] my ey]; try contradiction; intros _;
    unfold SF64mul, SFmul; cbn [xorb].
  - exact I.
  - exact I.
  - pose proof (binary_round_aux_sign false (Zpos (mx * my)) (ex + ey) loc_Exact
                  ltac:(lia)) as H.
    destruct (binary_round_aux _ _ _ _ _ _) as [s|s| |s m e]; try contradiction;
      subst s; exact I.
Qed.

Lemma SFdiv_nonneg x my ey :
  sf_nonneg x -> sf_nonneg (SF64div x (S754_finite false my ey)).
Proof.
  destruct x as [sx|[|]| |[|] mx ex]; try contradiction; intros _;
    unfold SF64div, SFdiv; cbn [xorb].
  - exact I.
  - exact I.
  - destruct (SFdiv_core_binary prec emax (Zpos mx) ex (Zpos my) ey) as [[mz ez] lz] eqn:E.
    assert (Hmz : 0 <= mz).
    { unfold SFdiv_core_binary in E. cbv zeta in E.
      set (m' := match _ - _ - _ with Zpos _ => _ | Z0 => _ | Zneg _ => _ end) in E.
      assert (Hm' : 0 <= m').
      { subst m'. destruct (_ - _ - _); [lia| |lia]. apply Z.shiftl_nonneg. lia. }
      pose proof (Z.div_pos m' (Zpos my) Hm' ltac:(lia)) as Hq.
      unfold Z.div in Hq. destruct (Z.div_eucl m' (Zpos my)) as [q r].
      injection E as <- _ _. exact Hq. }
    pose proof (binary_round_aux_sign false mz ez lz Hmz) as H.
    destruct (binary_round_aux _ _ _ _ _ _) as [s|s| |s m e]; try contradiction;
      subst s; exact I.
Qed.

(** ** Square-wave synthesizer *)

Lemma phaseInc_nonneg pow step :
  (0 <=? pow 2 (double_of_int step / 12))%float = true ->
  (0 <=? phaseInc_of (frequency_of pow step))%float = true.
Proof.
  rewrite !sf_nonneg_iff. intros Hpow.
  unfold phaseInc_of, frequency_of. rewrite div_spec, mul_spec.
  replace (Prim2SF (double_of_int SAMPLE_RATE))
    with (S754_finite false 6061057848115200 (-37)) by (vm_compute; reflexivity).
  replace (Prim2SF (double_of_int BASE_FREQUENCY))
    with (S754_finite false 7740561859543040 (-44)) by (vm_compute; reflexivity).
  apply SFdiv_nonneg, SFmul_nonneg, Hpow.
Qed.

Lemma phase_at_unit phaseInc i : forall ph,
  in_unit_interval ph -> in_unit_interval phaseInc ->
  in_unit_interval (phase_at phaseInc ph i).
Proof.
  induction i as [|i IH]; intros ph Hph Hinc; [exact Hph|].
  cbn [phase_at]. apply IH; [apply advance_phase_unit|]; assumption.
Qed.

(** The sample loop from index [lo]: the phase it leaves, and the buffer it
    leaves, slot by slot. *)
Lemma sample_loop_spec scaledAmplitude phaseInc n : forall lo buf ph,
  let r := for_range lo n (sample_loop_body scaledAmplitude phaseInc) (buf, ph) in
  snd r = phase_at phaseInc ph n /\
  length (fst r) = length buf /\
  forall j,
    fst r !! j =
    if in_window lo n j
    then (fun _ => sample_of scaledAmplitude (phase_at phaseInc ph (j - lo))) <$> (buf !! j)
    else buf !! j.
Proof.
  induction n as [|n IH]; intros lo buf ph; cbn zeta.
  - cbn [for_range fst snd phase_at]. repeat split. intros j.
    rewrite in_window_zero. reflexivity.
  - cbn [for_range phase_at].
    change (sample_loop_body scaledAmplitude phaseInc lo (buf, ph))
      with (<[lo := sample_of scaledAmplitude ph]> buf, advance_phase phaseInc ph).
    destruct (IH (S lo) (<[lo := sample_of scaledAmplitude ph]> buf)
                (advance_phase phaseInc ph)) as (Hph & Hlen & Hbuf).
    cbn zeta in Hph, Hlen, Hbuf.
    split; [exact Hph|]. split; [rewrite Hlen; apply length_insert|].
    intros j. rewrite Hbuf. destruct (Nat.eq_dec j lo) as [->|Hne].
    + destruct (in_window_succ_eq lo n) as [-> ->]. rewrite Nat.sub_diag. cbn [phase_at].
      destruct (decide (lo < length buf)%nat) as [Hlt|Hge].
      * rewrite list_lookup_insert_eq by assumption.
        destruct (lookup_lt_is_Some_2 buf lo Hlt) as [b ->]. reflexivity.
      * rewrite !lookup_ge_None_2; [reflexivity|lia|rewrite length_insert; lia].
    + rewrite in_window_succ_ne, list_lookup_insert_ne by auto.
      destruct (in_window lo (S n) j) eqn:Hw; [|reflexivity].
      unfold in_window in Hw. apply andb_prop in Hw. destruct Hw as [Hlo _].
      apply Nat.leb_le in Hlo.
      replace (j - lo)%nat with (S (j - S lo)) by lia.
      reflexivity.
Qed.

Section SynthesizerFacts.
Variable pow : float -> float -> float.

(** A buffer of 4096 bytes holds 2048 samples; a negative length, which
    the audio backend never passes, runs no round of the loop. *)
Example numSamples_of_4096 : numSamples_of 4096 = 2048 /\ Z.to_nat (numSamples_of (-4)) = 0%nat.
Proof. split; vm_compute; reflexivity. Qed.

(** The callback, field by field. *)
Lemma squareWaveCallback_fields stream len st :
  let r := squareWaveCallback pow stream len st in
  let loop :=
    for_range 0 (Z.to_nat (numSamples_of len))
      (sample_loop_body (scaledAmplitude_of (volumeLevel st))
         (phaseInc_of (frequency_of pow (semitoneStep st))))
      (stream, phase st) in
  fst r = fst loop /\
  phase (snd r) = snd loop /\
  waveTimer (snd r) = to_uint32 (waveTimer st + numSamples_of len) /\
  volumeLevel (snd r) = Z.rem (volumeLevel st + 1) MAX_SEMITONE_STEPS /\
  semitoneStep (snd r) = Z.rem (semitoneStep st + 1) MAX_SEMITONE_STEPS.
Proof.
  cbn zeta. unfold squareWaveCallback.
  destruct (for_range _ _ _ _) as [buffer ph]. repeat split.
Qed.

Lemma squareWaveCallback_phase stream len st :
  phase (snd (squareWaveCallback pow stream len st)) =
  phase_at (phaseInc_of (frequency_of pow (semitoneStep st))) (phase st)
    (Z.to_nat (numSamples_of len)).
Proof.
  destruct (squareWaveCallback_fields stream len st) as (_ & -> & _).
  apply sample_loop_spec.
Qed.

(** Within the samples of a call, slot [i] holds the sample of the phase
    reached after [i] wrap steps. *)
Lemma squareWaveCallback_sample stream len st i :
  (i < Z.to_nat (numSamples_of len))%nat ->
  (Z.to_nat (numSamples_of len) <= length stream)%nat ->
  fst (squareWaveCallback pow stream len st) !! i =
  Some (sample_of (scaledAmplitude_of (volumeLevel st))
          (phase_at (phaseInc_of (frequency_of pow (semitoneStep st))) (phase st) i)).
Proof.
  intros Hi Hlen.
  destruct (squareWaveCallback_fields stream len st) as (-> & _).
  destruct (sample_loop_spec (scaledAmplitude_of (volumeLevel st))
              (phaseInc_of (frequency_of pow (semitoneStep st)))
              (Z.to_nat (numSamples_of len)) 0%nat stream (phase st)) as (_ & _ & Hbuf).
  rewrite Hbuf.
  assert (Hw : in_window 0 (Z.to_nat (numSamples_of len)) i = true).
  { unfold in_window. apply andb_true_intro.
    split; [apply Nat.leb_le|apply Nat.ltb_lt]; lia. }
  rewrite Hw, Nat.sub_0_r.
  destruct (lookup_lt_is_Some_2 stream i ltac:(lia)) as [b ->]. reflexivity.
Qed.

(** Between callbacks both counters are in range and equal. *)
Lemma reachable_counters st :
  reachable pow st ->
  0 <= semitoneStep st < MAX_SEMITONE_STEPS /\ volumeLevel st = semitoneStep st.
Proof.
  induction 1 as [|stream len st _ [Hr He]].
  - unfold MAX_SEMITONE_STEPS. simpl. lia.
  - destruct (squareWaveCallback_fields stream len st) as (_ & _ & _ & -> & ->).
    rewrite He. split; [|reflexivity].
    unfold MAX_SEMITONE_STEPS in *.
    rewrite Z.rem_mod_nonneg by lia. apply Z.mod_pos_bound. lia.
Qed.

(** One callback keeps the phase in the unit interval. *)
Lemma callback_phase_unit stream len st :
  in_unit_interval (phase st) ->
  in_unit_interval (phaseInc_of (frequency_of pow (semitoneStep st))) ->
  in_unit_interval (phase (snd (squareWaveCallback pow stream len st))).
Proof.
  intros Hph Hinc. rewrite squareWaveCallback_phase.
  apply phase_at_unit; assumption.
Qed.

(** With a [pow] that keeps every increment of the pitch ladder in the
    unit interval, the phase is in the unit interval between any two
    callbacks. *)
Lemma reachable_phase_unit :
  (forall step, 0 <= step < MAX_SEMITONE_STEPS ->
                in_unit_interval (phaseInc_of (frequency_of pow step))) ->
  forall st, reachable pow st -> in_unit_interval (phase st).
Proof.
  intros Hinc st Hst. induction Hst as [|stream len st Hst IH].
  - split; reflexivity.
  - apply callback_phase_unit; [exact IH|].
    apply Hinc. apply (reachable_counters st Hst).
Qed.
End SynthesizerFacts.

(** C2: from a phase in [0,1), with the increment [frequency / SAMPLE_RATE]
    of the buffer below 1.0 (and [pow] returning, as the C library does, a
    number that is not negative), one step of the loop (add the increment,
    subtract 1.0 once if the sum reached 1.0) leaves a phase in [0,1); so
    does every sample of the callback, and the callback hands a phase in
    [0,1) to the next invocation.  The first part holds for any increment
    of [0,1). *)
Theorem phase_stays_in_unit_interval
    (pow : float -> float -> float) (stream : list Z) (len : Z) (st : AudioState) :
  in_unit_interval (phase st) ->
  (0 <=? pow 2 (double_of_int (semitoneStep st) / 12))%float = true ->
  (phaseInc_of (frequency_of pow (semitoneStep st)) <? 1)%float = true ->
  (forall ph phaseInc,
      in_unit_interval ph -> in_unit_interval phaseInc ->
      in_unit_interval (advance_phase phaseInc ph)) /\
  (forall ph,
      in_unit_interval ph ->
      in_unit_interval (advance_phase (phaseInc_of (frequency_of pow (semitoneStep st))) ph)) /\
  (forall i,
      in_unit_interval
        (phase_at (phaseInc_of (frequency_of pow (semitoneStep st))) (phase st) i)) /\
  in_unit_interval (phase (snd (squareWaveCallback pow stream len st))).
Proof.
  intros Hph Hpow Hlt.
  assert (Hinc : in_unit_interval (phaseInc_of (frequency_of pow (semitoneStep st)))).
  { split; [apply phaseInc_nonneg; exact Hpow|exact Hlt]. }
  split; [intros ph phaseInc; apply advance_phase_unit|].
  split; [intros ph Hp; apply advance_phase_unit; assumption|].
  split; [intros i; apply phase_at_unit; assumption|].
  apply callback_phase_unit; assumption.
Qed.

Lemma phase_stays_in_unit_interval_witness :
  in_unit_interval
    (phase (snd (squareWaveCallback pow_chord [0; 0; 0; 0] 8 (mkAudioState 0.75 0 3 12)))).
Proof.
  refine (proj2 (proj2 (proj2 (phase_stays_in_unit_interval pow_chord [0; 0; 0; 0] 8
                                 (mkAudioState 0.75 0 3 12) _ _ _)))).
  - split; vm_compute; reflexivity.
  - vm_compute. reflexivity.
  - vm_compute. reflexivity.
Defined.

Lemma scaledAmplitude_in_range v :
  0 <= v < MAX_SEMITONE_STEPS ->
  scaledAmplitude_of v = AMPLITUDE * v / (MAX_SEMITONE_STEPS - 1) /\
  to_int16 (AMPLITUDE * v / (MAX_SEMITONE_STEPS - 1))
    = AMPLITUDE * v / (MAX_SEMITONE_STEPS - 1) /\
  to_int16 (- (AMPLITUDE * v / (MAX_SEMITONE_STEPS - 1)))
    = - (AMPLITUDE * v / (MAX_SEMITONE_STEPS - 1)).
Proof.
  unfold MAX_SEMITONE_STEPS. intros Hv.
  assert (Hcases : v = 0 \/ v = 1 \/ v = 2 \/ v = 3 \/ v = 4 \/ v = 5 \/ v = 6 \/ v = 7 \/
                   v = 8 \/ v = 9 \/ v = 10 \/ v = 11 \/ v = 12 \/ v = 13 \/ v = 14 \/ v = 15)
    by lia.
  repeat (destruct Hcases as [->|Hcases]); [..|subst v];
    (split; [|split]); vm_compute; reflexivity.
Qed.

(** C3: in one callback, from a state between callbacks, sample [i] is
    [+scaledAmplitude] when the phase accumulator is below 0.5 at that
    sample and [-scaledAmplitude] otherwise, with
    [scaledAmplitude = AMPLITUDE * volumeLevel / (MAX_SEMITONE_STEPS - 1)]
    and the phase increment both fixed for the whole buffer. *)
Theorem square_wave_samples
    (pow : float -> float -> float) (stream : list Z) (len : Z) (st : AudioState) (i : nat) :
  reachable pow st ->
  (Z.to_nat (numSamples_of len) <= length stream)%nat ->
  (i < Z.to_nat (numSamples_of len))%nat ->
  scaledAmplitude_of (volumeLevel st)
    = AMPLITUDE * volumeLevel st / (MAX_SEMITONE_STEPS - 1) /\
  fst (squareWaveCallback pow stream len st) !! i =
  Some (if (phase_at (phaseInc_of (frequency_of pow (semitoneStep st))) (phase st) i
            <? 0.5)%float
        then AMPLITUDE * volumeLevel st / (MAX_SEMITONE_STEPS - 1)
        else - (AMPLITUDE * volumeLevel st / (MAX_SEMITONE_STEPS - 1))).
Proof.
  intros Hst Hlen Hi.
  destruct (reachable_counters pow st Hst) as [Hr He].
  destruct (scaledAmplitude_in_range (volumeLevel st) ltac:(lia)) as (Hsa & Hp & Hn).
  split; [exact Hsa|].
  rewrite squareWaveCallback_sample by assumption.
  unfold sample_of. rewrite Hsa.
  destruct (_ <? 0.5)%float; [rewrite Hp|rewrite Hn]; reflexivity.
Qed.

Lemma square_wave_samples_witness :
  fst (squareWaveCallback pow_chord (replicate 64 0) 128
         (snd (squareWaveCallback pow_chord [0; 0] 4 audio_init))) !! 1%nat
    = Some 1866 /\
  fst (squareWaveCallback pow_chord (replicate 64 0) 128
         (snd (squareWaveCallback pow_chord [0; 0] 4 audio_init))) !! 50%nat
    = Some (- 1866).
Proof.
  split.
  - refine (eq_trans
              (proj2 (square_wave_samples pow_chord (replicate 64 0) 128
                        (snd (squareWaveCallback pow_chord [0; 0] 4 audio_init))
                        1%nat _ _ _)) _).
    + apply reachable_callback, reachable_init.
    + vm_compute. lia.
    + vm_compute. lia.
    + vm_compute. reflexivity.
  - refine (eq_trans
              (proj2 (square_wave_samples pow_chord (replicate 64 0) 128
                        (snd (squareWaveCallback pow_chord [0; 0] 4 audio_init))
                        50%nat _ _ _)) _).
    + apply reachable_callback, reachable_init.
    + vm_compute. lia.
    + vm_compute. lia.
    + vm_compute. reflexivity.
Defined.

(** C4: the frequency of a buffer is [BASE_FREQUENCY * pow(2, step / 12)]
    for the pitch step the callback starts with; with a [pow] that is exact
    at the exponents 0 and 1 it is exactly 440 at step 0 and exactly
    880 = 440 * 2 at step 12. *)
Theorem frequency_ladder (pow : float -> float -> float) :
  pow 2%float 0%float = 1%float ->
  pow 2%float 1%float = 2%float ->
  (forall step,
      frequency_of pow step
        = (double_of_int BASE_FREQUENCY * pow 2 (double_of_int step / 12))%float) /\
  (forall stream len st,
      phase (snd (squareWaveCallback pow stream len st)) =
      phase_at
        (double_of_int BASE_FREQUENCY * pow 2 (double_of_int (semitoneStep st) / 12)
           / double_of_int SAMPLE_RATE)%float
        (phase st) (Z.to_nat (numSamples_of len))) /\
  frequency_of pow 0 = double_of_int BASE_FREQUENCY /\
  frequency_of pow 12 = (double_of_int BASE_FREQUENCY * 2)%float /\
  frequency_of pow 12 = 880%float.
Proof.
  intros H0 H1.
  split; [reflexivity|].
  split; [intros stream len st; apply squareWaveCallback_phase|].
  unfold frequency_of.
  replace (double_of_int 0 / 12)%float with 0%float by (vm_compute; reflexivity).
  replace (double_of_int 12 / 12)%float with 1%float by (vm_compute; reflexivity).
  rewrite H0, H1. repeat split; vm_compute; reflexivity.
Qed.

Lemma frequency_ladder_witness :
  frequency_of pow_chord 0 = double_of_int BASE_FREQUENCY /\
  frequency_of pow_chord 12 = (double_of_int BASE_FREQUENCY * 2)%float /\
  frequency_of pow_chord 12 = 880%float.
Proof.
  refine (proj2 (proj2 (frequency_ladder pow_chord _ _))).
  - vm_compute. reflexivity.
  - vm_compute. reflexivity.
Defined.

(** C5: the pitch step and the volume step are cyclic counters over
    [0 .. MAX_SEMITONE_STEPS - 1]: in every state between callbacks both
    are in range; a callback generates its buffer from the steps it starts
    with and then replaces each by its successor modulo
    [MAX_SEMITONE_STEPS], so that [MAX_SEMITONE_STEPS - 1] is followed by 0;
    and the state it leaves is again a state between callbacks, from which
    the next callback runs. *)
Theorem step_counters_cycle
    (pow : float -> float -> float) (stream : list Z) (len : Z) (st : AudioState) :
  reachable pow st ->
  (0 <= semitoneStep st < MAX_SEMITONE_STEPS /\ 0 <= volumeLevel st < MAX_SEMITONE_STEPS) /\
  fst (squareWaveCallback pow stream len st)
    = fst (for_range 0 (Z.to_nat (numSamples_of len))
             (sample_loop_body (scaledAmplitude_of (volumeLevel st))
                (phaseInc_of (frequency_of pow (semitoneStep st))))
             (stream, phase st)) /\
  semitoneStep (snd (squareWaveCallback pow stream len st))
    = (semitoneStep st + 1) mod MAX_SEMITONE_STEPS /\
  volumeLevel (snd (squareWaveCallback pow stream len st))
    = (volumeLevel st + 1) mod MAX_SEMITONE_STEPS /\
  (semitoneStep st = MAX_SEMITONE_STEPS - 1 ->
   semitoneStep (snd (squareWaveCallback pow stream len st)) = 0) /\
  (volumeLevel st = MAX_SEMITONE_STEPS - 1 ->
   volumeLevel (snd (squareWaveCallback pow stream len st)) = 0) /\
  reachable pow (snd (squareWaveCallback pow stream len st)) /\
  0 <= semitoneStep (snd (squareWaveCallback pow stream len st)) < MAX_SEMITONE_STEPS /\
  0 <= volumeLevel (snd (squareWaveCallback pow stream len st)) < MAX_SEMITONE_STEPS.
Proof.
  intros Hst.
  destruct (reachable_counters pow st Hst) as [Hr He].
  pose proof (reachable_callback pow stream len st Hst) as Hnext.
  destruct (reachable_counters pow _ Hnext) as [Hr' He'].
  destruct (squareWaveCallback_fields pow stream len st) as (Hbuf & _ & _ & Hv & Hs).
  cbv zeta in Hbuf, Hv, Hs.
  unfold MAX_SEMITONE_STEPS in *.
  rewrite Z.rem_mod_nonneg in Hv, Hs by lia.
  repeat split; try assumption; try lia.
  - intros E. rewrite Hs, E. reflexivity.
  - intros E. rewrite Hv, E. reflexivity.
Qed.

Lemma step_counters_cycle_witness :
  semitoneStep (snd (squareWaveCallback pow_chord [0; 0] 4 audio_init))
    = (semitoneStep audio_init + 1) mod MAX_SEMITONE_STEPS.
Proof.
  refine (proj1 (proj2 (proj2 (step_counters_cycle pow_chord [0; 0] 4 audio_init _)))).
  apply reachable_init.
Defined.

(** C9: [getControllerState] returns the memory it was given untouched, and
    its result depends on the contents of the array it is pointed to and on
    the table only; the samples [squareWaveCallback] writes and the phase,
    pitch step and volume step it leaves depend only on the phase, pitch
    step and volume step it starts with and on the number of samples, not
    on the sample counter nor on what the buffer held. *)
Theorem encoding_and_synthesis_deterministic
    (pow : float -> float -> float)
    (stream1 stream2 : list Z) (len1 len2 : Z) (st1 st2 : AudioState) :
  phase st1 = phase st2 ->
  semitoneStep st1 = semitoneStep st2 ->
  volumeLevel st1 = volumeLevel st2 ->
  numSamples_of len1 = numSamples_of len2 ->
  (Z.to_nat (numSamples_of len1) <= length stream1)%nat ->
  (Z.to_nat (numSamples_of len2) <= length stream2)%nat ->
  (forall p keyMap mem, snd (getControllerState p keyMap mem) = mem) /\
  (forall p p' keyMap mem mem',
      deref p mem = deref p' mem' ->
      fst (getControllerState p keyMap mem) = fst (getControllerState p' keyMap mem')) /\
  (forall p keyMap mem,
      fst (getControllerState p keyMap (snd (getControllerState p keyMap mem)))
        = fst (getControllerState p keyMap mem)) /\
  take (Z.to_nat (numSamples_of len1)) (fst (squareWaveCallback pow stream1 len1 st1))
    = take (Z.to_nat (numSamples_of len2)) (fst (squareWaveCallback pow stream2 len2 st2)) /\
  phase (snd (squareWaveCallback pow stream1 len1 st1))
    = phase (snd (squareWaveCallback pow stream2 len2 st2)) /\
  semitoneStep (snd (squareWaveCallback pow stream1 len1 st1))
    = semitoneStep (snd (squareWaveCallback pow stream2 len2 st2)) /\
  volumeLevel (snd (squareWaveCallback pow stream1 len1 st1))
    = volumeLevel (snd (squareWaveCallback pow stream2 len2 st2)).
Proof.
  intros Hph Hs Hv Hn Hl1 Hl2.
  split; [intros p keyMap mem; rewrite getControllerState_run; reflexivity|].
  split; [intros p p' keyMap mem mem' E; rewrite !getControllerState_run; cbn [fst];
          rewrite E; reflexivity|].
  split; [intros p keyMap mem; rewrite !getControllerState_run; reflexivity|].
  split.
  { apply list_eq. intros i. rewrite <- Hn.
    destruct (decide (i < Z.to_nat (numSamples_of len1))%nat) as [Hi|Hi].
    - rewrite !lookup_take_lt by assumption.
      assert (Hi2 : (i < Z.to_nat (numSamples_of len2))%nat) by (rewrite <- Hn; exact Hi).
      rewrite (squareWaveCallback_sample pow stream1 len1 st1 i Hi Hl1).
      rewrite (squareWaveCallback_sample pow stream2 len2 st2 i Hi2 Hl2).
      rewrite Hph, Hs, Hv. reflexivity.
    - rewrite !lookup_take_ge by lia. reflexivity. }
  rewrite !squareWaveCallback_phase.
  destruct (squareWaveCallback_fields pow stream1 len1 st1) as (_ & _ & _ & -> & ->).
  destruct (squareWaveCallback_fields pow stream2 len2 st2) as (_ & _ & _ & -> & ->).
  rewrite Hph, Hs, Hv, Hn. repeat split.
Qed.

Lemma encoding_and_synthesis_deterministic_witness :
  take (Z.to_nat (numSamples_of 8))
    (fst (squareWaveCallback pow_chord [1; 2; 3; 4] 8 (mkAudioState 0.75 0 3 3)))
  = take (Z.to_nat (numSamples_of 9))
      (fst (squareWaveCallback pow_chord [9; 9; 9; 9; 5] 9 (mkAudioState 0.75 70000 3 3))).
Proof.
  refine (proj1 (proj2 (proj2 (proj2
            (encoding_and_synthesis_deterministic pow_chord
               [1; 2; 3; 4] [9; 9; 9; 9; 5] 8 9
               (mkAudioState 0.75 0 3 3) (mkAudioState 0.75 70000 3 3) _ _ _ _ _ _))))).
  - reflexivity.
  - reflexivity.
  - reflexivity.
  - reflexivity.
  - vm_compute. lia.
  - vm_compute. lia.
Defined.

(** C10: between callbacks the pitch step and the volume step are equal:
    both start at 0 and every callback advances both by one modulo
    [MAX_SEMITONE_STEPS]. *)
Theorem steps_in_lockstep (pow : float -> float -> float) (st : AudioState) :
  reachable pow st -> semitoneStep st = volumeLevel st.
Proof.
  intros Hst. destruct (reachable_counters pow st Hst) as [_ He]. symmetry. exact He.
Qed.

Lemma steps_in_lockstep_witness :
  semitoneStep (snd (squareWaveCallback pow_chord [0; 0; 0] 6
                       (snd (squareWaveCallback pow_chord [0; 0] 4 audio_init))))
  = volumeLevel (snd (squareWaveCallback pow_chord [0; 0; 0] 6
                        (snd (squareWaveCallback pow_chord [0; 0] 4 audio_init)))).
Proof.
  apply (steps_in_lockstep pow_chord).
  apply reachable_callback, reachable_callback, reachable_init.
Defined.


(** * Further properties of the code *)

(** ** Input state encoder *)

Lemma KeyStates_eq (m m' : KeyStates) :
  keyState1 m = keyState1 m' -> keyState2 m = keyState2 m' -> m = m'.
Proof. destruct m, m'. simpl. intros -> ->. reflexivity. Qed.

(** [setKeyState], entry by entry, on arrays of any length. *)
Lemma setKeyState_lookup c1 c2 code pressed mem j :
  keyState1 (snd (setKeyState c1 c2 code pressed mem)) !! j =
    ((fun b => if in_window 0 NUM_KEYS j && key_at c1 j code then pressed else b)
       <$> (keyState1 mem !! j)) /\
  keyState2 (snd (setKeyState c1 c2 code pressed mem)) !! j =
    ((fun b => if in_window 0 NUM_KEYS j && key_at c2 j code then pressed else b)
       <$> (keyState2 mem !! j)).
Proof. apply setKeyState_loop. Qed.

Lemma setKeyState_length c1 c2 code pressed mem :
  length (keyState1 (snd (setKeyState c1 c2 code pressed mem))) = length (keyState1 mem) /\
  length (keyState2 (snd (setKeyState c1 c2 code pressed mem))) = length (keyState2 mem).
Proof.
  split; apply Nat.le_antisymm.
  - destruct (Nat.le_gt_cases
                (length (keyState1 (snd (setKeyState c1 c2 code pressed mem))))
                (length (keyState1 mem))) as [H|H]; [exact H|exfalso].
    apply lookup_lt_is_Some_2 in H. destruct H as [b Hb].
    rewrite (proj1 (setKeyState_lookup c1 c2 code pressed mem _)) in Hb.
    rewrite lookup_ge_None_2 in Hb by lia. discriminate.
  - destruct (Nat.le_gt_cases (length (keyState1 mem))
                (length (keyState1 (snd (setKeyState c1 c2 code pressed mem)))))
      as [H|H]; [exact H|exfalso].
    apply lookup_lt_is_Some_2 in H. destruct H as [b Hb].
    pose proof (proj1 (setKeyState_lookup c1 c2 code pressed mem
                         (length (keyState1 (snd (setKeyState c1 c2 code pressed mem)))))) as L.
    rewrite Hb, lookup_ge_None_2 in L by lia. discriminate.
  - destruct (Nat.le_gt_cases
                (length (keyState2 (snd (setKeyState c1 c2 code pressed mem))))
                (length (keyState2 mem))) as [H|H]; [exact H|exfalso].
    apply lookup_lt_is_Some_2 in H. destruct H as [b Hb].
    rewrite (proj2 (setKeyState_lookup c1 c2 code pressed mem _)) in Hb.
    rewrite lookup_ge_None_2 in Hb by lia. discriminate.
  - destruct (Nat.le_gt_cases (length (keyState2 mem))
                (length (keyState2 (snd (setKeyState c1 c2 code pressed mem)))))
      as [H|H]; [exact H|exfalso].
    apply lookup_lt_is_Some_2 in H. destruct H as [b Hb].
    pose proof (proj2 (setKeyState_lookup c1 c2 code pressed mem
                         (length (keyState2 (snd (setKeyState c1 c2 code pressed mem)))))) as L.
    rewrite Hb, lookup_ge_None_2 in L by lia. discriminate.
Qed.

(** With the eight flags in the table, bit [i] of the register is the
    entry [i] of the array. *)
Lemma register_of_testbit keyState keyMap i :
  length keyState = NUM_KEYS -> map value keyMap = nes_flags -> (i < NUM_KEYS)%nat ->
  Z.testbit (register_of keyState keyMap) (Z.of_nat i) = pressed_at keyState i.
Proof.
  intros Hs Hflags Hi.
  do 9 (destruct keyState as [|? keyState]; try discriminate Hs).
  do 9 (destruct keyMap as [|? keyMap]; try discriminate Hflags).
  injection Hflags as H0 H1 H2 H3 H4 H5 H6 H7.
  unfold register_of, register_step, NUM_KEYS, for_range, pressed_at, value_at in *.
  cbn [lookup list_lookup]. rewrite H0, H1, H2, H3, H4, H5, H6, H7.
  do 8 (destruct i as [|i]; [repeat match goal with b : bool |- _ => destruct b end;
                             reflexivity|]).
  lia.
Qed.

(** X2: with the eight button flags in the table, the register encodes the
    array without loss: bit [i] of the register is entry [i] of the array,
    so two 8-entry arrays with the same register are equal. *)
Theorem register_decodes
    (p : KeyStatePtr) (keyMap : list KeyMapping) (mem : KeyStates) :
  length (deref p mem) = NUM_KEYS -> map value keyMap = nes_flags ->
  (forall i, (i < NUM_KEYS)%nat ->
     Z.testbit (fst (getControllerState p keyMap mem)) (Z.of_nat i)
       = pressed_at (deref p mem) i) /\
  (forall p' mem',
     length (deref p' mem') = NUM_KEYS ->
     fst (getControllerState p' keyMap mem') = fst (getControllerState p keyMap mem) ->
     deref p' mem' = deref p mem).
Proof.
  intros Hs Hflags. split.
  - intros i Hi. rewrite getControllerState_run. cbn [fst].
    apply register_of_testbit; assumption.
  - intros p' mem' Hs' Heq. rewrite !getControllerState_run in Heq. cbn [fst] in Heq.
    apply list_eq. intros i.
    destruct (decide (i < NUM_KEYS)%nat) as [Hi|Hi].
    + pose proof (register_of_testbit _ _ i Hs Hflags Hi) as B.
      pose proof (register_of_testbit _ _ i Hs' Hflags Hi) as B'.
      rewrite Heq, B in B'. unfold pressed_at in B'.
      destruct (lookup_lt_is_Some_2 (deref p mem) i ltac:(lia)) as [b E].
      destruct (lookup_lt_is_Some_2 (deref p' mem') i ltac:(lia)) as [b' E'].
      rewrite E, E' in *. congruence.
    + rewrite !lookup_ge_None_2 by lia. reflexivity.
Qed.

Lemma register_decodes_witness :
  Z.testbit (fst (getControllerState Ptr_keyState1 ApuTest.controller1Keys
                    (up_and_a_pressed ApuTest.setKeyState))) (Z.of_nat 4)
  = pressed_at (deref Ptr_keyState1 (up_and_a_pressed ApuTest.setKeyState)) 4.
Proof.
  refine (proj1 (register_decodes Ptr_keyState1 ApuTest.controller1Keys
                   (up_and_a_pressed ApuTest.setKeyState) _ _) 4%nat _).
  - vm_compute. reflexivity.
  - reflexivity.
  - unfold NUM_KEYS. lia.
Defined.

Lemma setKeyState_overwrite c1 c2 code pressed pressed' mem :
  snd (setKeyState c1 c2 code pressed' (snd (setKeyState c1 c2 code pressed mem)))
  = snd (setKeyState c1 c2 code pressed' mem).
Proof.
  apply KeyStates_eq; apply list_eq; intros j.
  - rewrite !(proj1 (setKeyState_lookup c1 c2 code _ _ j)).
    destruct (keyState1 mem !! j); [|reflexivity]. cbn [fmap option_fmap option_map].
    destruct (in_window 0 NUM_KEYS j && key_at c1 j code); reflexivity.
  - rewrite !(proj2 (setKeyState_lookup c1 c2 code _ _ j)).
    destruct (keyState2 mem !! j); [|reflexivity]. cbn [fmap option_fmap option_map].
    destruct (in_window 0 NUM_KEYS j && key_at c2 j code); reflexivity.
Qed.

(** X3: of two transitions of the same key the second one decides: the
    memory is the one the second transition alone would leave; so a
    repeated key-down, as a held key sends, changes nothing more. *)
Theorem setKeyState_last_wins
    (c1 c2 : list KeyMapping) (code : Z) (pressed pressed' : bool) (mem : KeyStates) :
  snd (setKeyState c1 c2 code pressed' (snd (setKeyState c1 c2 code pressed mem)))
    = snd (setKeyState c1 c2 code pressed' mem) /\
  snd (setKeyState c1 c2 code pressed (snd (setKeyState c1 c2 code pressed mem)))
    = snd (setKeyState c1 c2 code pressed mem).
Proof. split; apply setKeyState_overwrite. Qed.

Lemma key_at_exclusive keyMap i code code' :
  code <> code' -> key_at keyMap i code = true -> key_at keyMap i code' = false.
Proof.
  unfold key_at. destruct (keyMap !! i) as [km|]; [|discriminate].
  intros Hne H. apply Z.eqb_eq in H. apply Z.eqb_neq. congruence.
Qed.

(** X4: transitions of two different keys commute, whatever the tables
    bind. *)
Theorem setKeyState_commutes
    (c1 c2 : list KeyMapping) (code code' : Z) (pressed pressed' : bool) (mem : KeyStates) :
  code <> code' ->
  snd (setKeyState c1 c2 code' pressed' (snd (setKeyState c1 c2 code pressed mem)))
  = snd (setKeyState c1 c2 code pressed (snd (setKeyState c1 c2 code' pressed' mem))).
Proof.
  intros Hne.
  apply KeyStates_eq; apply list_eq; intros j.
  - rewrite !(proj1 (setKeyState_lookup c1 c2 _ _ _ j)).
    destruct (keyState1 mem !! j); [|reflexivity]. cbn [fmap option_fmap option_map].
    destruct (key_at c1 j code) eqn:E.
    + rewrite (key_at_exclusive c1 j code code' Hne E), !andb_false_r.
      destruct (in_window 0 NUM_KEYS j && true); reflexivity.
    + rewrite !andb_false_r. destruct (in_window 0 NUM_KEYS j && key_at c1 j code');
        reflexivity.
  - rewrite !(proj2 (setKeyState_lookup c1 c2 _ _ _ j)).
    destruct (keyState2 mem !! j); [|reflexivity]. cbn [fmap option_fmap option_map].
    destruct (key_at c2 j code) eqn:E.
    + rewrite (key_at_exclusive c2 j code code' Hne E), !andb_false_r.
      destruct (in_window 0 NUM_KEYS j && true); reflexivity.
    + rewrite !andb_false_r. destruct (in_window 0 NUM_KEYS j && key_at c2 j code');
        reflexivity.
Qed.

Lemma setKeyState_commutes_witness :
  snd (ControllerTest.setKeyState SDLK_5 true
         (snd (ControllerTest.setKeyState SDLK_UP false keyStates_init)))
  = snd (ControllerTest.setKeyState SDLK_UP false
           (snd (ControllerTest.setKeyState SDLK_5 true keyStates_init))).
Proof.
  apply (setKeyState_commutes ControllerTest.controller1Keys ControllerTest.controller2Keys
           SDLK_UP SDLK_5 false true keyStates_init).
  vm_compute. discriminate.
Defined.

(** X5: with the eight button flags in the tables, a key transition sets
    the register bits of the buttons the key is bound to, in each
    controller, to the pressed flag and leaves every other bit of the two
    registers as it was. *)
Theorem transition_changes_bound_bits
    (c1 c2 : list KeyMapping) (code : Z) (pressed : bool) (mem : KeyStates) (i : nat) :
  length (keyState1 mem) = NUM_KEYS -> length (keyState2 mem) = NUM_KEYS ->
  map value c1 = nes_flags -> map value c2 = nes_flags ->
  (i < NUM_KEYS)%nat ->
  Z.testbit (fst (getControllerState Ptr_keyState1 c1
                    (snd (setKeyState c1 c2 code pressed mem)))) (Z.of_nat i)
    = (if key_at c1 i code then pressed
       else Z.testbit (fst (getControllerState Ptr_keyState1 c1 mem)) (Z.of_nat i)) /\
  Z.testbit (fst (getControllerState Ptr_keyState2 c2
                    (snd (setKeyState c1 c2 code pressed mem)))) (Z.of_nat i)
    = (if key_at c2 i code then pressed
       else Z.testbit (fst (getControllerState Ptr_keyState2 c2 mem)) (Z.of_nat i)).
Proof.
  intros Hs1 Hs2 Hf1 Hf2 Hi.
  destruct (setKeyState_length c1 c2 code pressed mem) as [L1 L2].
  destruct (setKeyState_lookup c1 c2 code pressed mem i) as [K1 K2].
  rewrite !getControllerState_run. cbn [fst deref].
  rewrite !register_of_testbit by (assumption || lia).
  rewrite in_window_full in K1, K2 by assumption. cbn [andb] in K1, K2.
  unfold pressed_at. rewrite K1, K2.
  destruct (lookup_lt_is_Some_2 (keyState1 mem) i ltac:(lia)) as [b1 ->].
  destruct (lookup_lt_is_Some_2 (keyState2 mem) i ltac:(lia)) as [b2 ->].
  split; reflexivity.
Qed.

Lemma transition_changes_bound_bits_witness :
  Z.testbit (fst (getControllerState Ptr_keyState1 ControllerTest.controller1Keys
                    (snd (ControllerTest.setKeyState SDLK_5 true keyStates_init)))) 2
  = true.
Proof.
  refine (proj1 (transition_changes_bound_bits
                   ControllerTest.controller1Keys ControllerTest.controller2Keys
                   SDLK_5 true keyStates_init 2%nat _ _ _ _ _)).
  - reflexivity.
  - reflexivity.
  - reflexivity.
  - reflexivity.
  - unfold NUM_KEYS. lia.
Defined.

(** ** Event handling *)

Section EventLoopFacts.
Variables controller1Keys controller2Keys : list KeyMapping.

Local Abbreviation handle := (handleEvents controller1Keys controller2Keys).
Local Abbreviation handle1 := (handleEvents_body controller1Keys controller2Keys).

Lemma handleEvents_body_running e mem running :
  snd (handle1 e (mem, running)) = running && negb (stops_loop e).
Proof.
  unfold handleEvents_body, stops_loop. cbn [fst snd].
  destruct (type e =? SDL_QUIT); [rewrite andb_false_r; reflexivity|].
  destruct ((type e =? SDL_KEYDOWN) || (type e =? SDL_KEYUP)); cbn [orb andb negb snd].
  - destruct (sym e =? SDLK_ESCAPE); cbn [negb];
      [rewrite andb_false_r|rewrite andb_true_r]; reflexivity.
  - rewrite andb_true_r. reflexivity.
Qed.

Lemma quit_is_not_key e : (type e =? SDL_QUIT) = true -> is_key_event e = false.
Proof.
  intros H. apply Z.eqb_eq in H. unfold is_key_event. rewrite H. reflexivity.
Qed.

Lemma handleEvents_body_keys e mem running :
  fst (handle1 e (mem, running)) =
  if is_key_event e
  then snd (setKeyState controller1Keys controller2Keys (sym e)
              (type e =? SDL_KEYDOWN) mem)
  else mem.
Proof.
  unfold handleEvents_body. cbn [fst snd].
  destruct (type e =? SDL_QUIT) eqn:Q; [rewrite (quit_is_not_key e Q); reflexivity|].
  unfold is_key_event.
  destruct ((type e =? SDL_KEYDOWN) || (type e =? SDL_KEYUP)); reflexivity.
Qed.

Lemma handleEvents_cons e queue s :
  handle (e :: queue) s = handle queue (handle1 e s).
Proof. reflexivity. Qed.

Lemma handleEvents_app queue queue' s :
  handle (queue ++ queue') s = handle queue' (handle queue s).
Proof. unfold handleEvents. apply foldl_app. Qed.

Lemma handleEvents_running queue : forall mem running,
  snd (handle queue (mem, running))
  = running && forallb (fun e => negb (stops_loop e)) queue.
Proof.
  induction queue as [|e queue IH]; intros mem running.
  - cbn. rewrite andb_true_r. reflexivity.
  - rewrite handleEvents_cons.
    destruct (handle1 e (mem, running)) as [mem' running'] eqn:E.
    rewrite IH. cbn [forallb].
    pose proof (handleEvents_body_running e mem running) as R. rewrite E in R.
    cbn [snd] in R. rewrite R, andb_assoc. reflexivity.
Qed.

Lemma handleEvents_keys queue : forall mem running running',
  fst (handle queue (mem, running))
  = fst (handle (List.filter is_key_event queue) (mem, running')).
Proof.
  induction queue as [|e queue IH]; intros mem running running'; [reflexivity|].
  rewrite handleEvents_cons. cbn [List.filter].
  destruct (handle1 e (mem, running)) as [mem' r1] eqn:E.
  pose proof (handleEvents_body_keys e mem running) as K. rewrite E in K. cbn [fst] in K.
  destruct (is_key_event e) eqn:Ek.
  - rewrite handleEvents_cons.
    destruct (handle1 e (mem, running')) as [mem'' r2] eqn:E'.
    pose proof (handleEvents_body_keys e mem running') as K'. rewrite E', Ek in K'.
    cbn [fst] in K'. rewrite (IH mem' r1 r2). congruence.
  - subst mem'. apply IH.
Qed.
End EventLoopFacts.

(** X6: after [handleEvents] the loop flag is on exactly when it was on
    before and the queue held neither a quit request nor an event of the
    escape key, pressed or released; [handleEvents] never turns it on. *)
Theorem handleEvents_running_flag
    (c1 c2 : list KeyMapping) (queue : list SDL_Event) (mem : KeyStates) (running : bool) :
  snd (handleEvents c1 c2 queue (mem, running))
    = running && forallb (fun e => negb (stops_loop e)) queue /\
  snd (handleEvents c1 c2 queue (mem, false)) = false.
Proof.
  split; [apply handleEvents_running|].
  rewrite handleEvents_running. reflexivity.
Qed.

(** X7: the key memory [handleEvents] leaves does not depend on the loop
    flag and is the one the key-down and key-up events of the queue alone
    leave: other events are skipped, and the events that follow a quit
    request in the queue are still applied. *)
Theorem handleEvents_key_memory
    (c1 c2 : list KeyMapping) (queue : list SDL_Event)
    (mem : KeyStates) (running running' : bool) :
  fst (handleEvents c1 c2 queue (mem, running))
    = fst (handleEvents c1 c2 (List.filter is_key_event queue) (mem, running')) /\
  (forall (code : Z) (pressed : bool),
      fst (handleEvents c1 c2
             (queue ++ [mkEvent SDL_QUIT code;
                        mkEvent (if pressed then SDL_KEYDOWN else SDL_KEYUP) code])
             (mem, running))
      = snd (setKeyState c1 c2 code pressed
               (fst (handleEvents c1 c2 queue (mem, running))))).
Proof.
  split; [apply handleEvents_keys|].
  intros code pressed. rewrite handleEvents_app.
  destruct (handleEvents c1 c2 queue (mem, running)) as [mem' r'].
  destruct pressed; reflexivity.
Qed.

(** X8: a key that goes down and up again within one queue leaves the
    memory, and with it both registers, as its release alone does: the
    press is never seen by the frame. *)
Theorem tap_within_frame_is_lost
    (c1 c2 : list KeyMapping) (queue : list SDL_Event) (code : Z)
    (mem : KeyStates) (running : bool) :
  fst (handleEvents c1 c2 (queue ++ [mkEvent SDL_KEYDOWN code; mkEvent SDL_KEYUP code])
         (mem, running))
  = fst (handleEvents c1 c2 (queue ++ [mkEvent SDL_KEYUP code]) (mem, running)).
Proof.
  rewrite !handleEvents_app.
  destruct (handleEvents c1 c2 queue (mem, running)) as [mem' r'].
  change (fst (handleEvents_body c1 c2 (mkEvent SDL_KEYUP code)
                 (handleEvents_body c1 c2 (mkEvent SDL_KEYDOWN code) (mem', r')))
          = fst (handleEvents_body c1 c2 (mkEvent SDL_KEYUP code) (mem', r'))).
  destruct (handleEvents_body c1 c2 (mkEvent SDL_KEYDOWN code) (mem', r')) as [m1 r1] eqn:E.
  pose proof (handleEvents_body_keys c1 c2 (mkEvent SDL_KEYDOWN code) mem' r') as K.
  rewrite E in K. cbn [fst] in K.
  rewrite !handleEvents_body_keys, K.
  change (is_key_event (mkEvent SDL_KEYUP code)) with true.
  change (is_key_event (mkEvent SDL_KEYDOWN code)) with true.
  cbv iota. cbn [type sym]. apply setKeyState_overwrite.
Qed.

(** ** Main loop of the keyboard controller test *)

Lemma main_loop_stopped c1 c2 frames mem :
  main_loop c1 c2 frames mem false = ([], mem).
Proof. destruct frames; reflexivity. Qed.

Lemma forallb_negb_existsb {A : Type} (f : A -> bool) (l : list A) :
  forallb (fun x => negb (f x)) l = negb (existsb f l).
Proof.
  induction l as [|x l IH]; [reflexivity|].
  cbn [forallb existsb]. rewrite IH, negb_orb. reflexivity.
Qed.

(** X9: the loop of [main] handles the queues of the frames up to the first
    one that holds a quit request or an escape key event, renders that
    frame too, and stops: what later frames would bring is never handled,
    and the key memory is the one the events up to the end of that queue
    leave. *)
Theorem main_loop_stops_at_quit
    (c1 c2 : list KeyMapping) (before : list (list SDL_Event)) (queue : list SDL_Event)
    (after : list (list SDL_Event)) (mem : KeyStates) :
  Forall (fun q => existsb stops_loop q = false) before ->
  existsb stops_loop queue = true ->
  main_loop c1 c2 (before ++ queue :: after) mem true
    = main_loop c1 c2 (before ++ [queue]) mem true /\
  length (fst (main_loop c1 c2 (before ++ queue :: after) mem true)) = S (length before) /\
  snd (main_loop c1 c2 (before ++ queue :: after) mem true)
    = fst (handleEvents c1 c2 (concat before ++ queue) (mem, true)).
Proof.
  intros Hbefore Hquit. revert mem.
  induction Hbefore as [|q before Hq _ IH]; intros mem.
  - cbn [app concat main_loop].
    pose proof (handleEvents_running c1 c2 queue mem true) as R.
    rewrite forallb_negb_existsb, Hquit in R. cbn in R.
    destruct (handleEvents c1 c2 queue (mem, true)) as [mem' r']. cbn [fst snd] in *.
    subst r'. rewrite !main_loop_stopped. repeat split.
  - cbn [app concat main_loop].
    pose proof (handleEvents_running c1 c2 q mem true) as R.
    rewrite forallb_negb_existsb, Hq in R. cbn in R.
    rewrite <- app_assoc, handleEvents_app.
    destruct (handleEvents c1 c2 q (mem, true)) as [mem' r']. cbn [fst snd] in *.
    subst r'. destruct (IH mem') as (E & L & K).
    rewrite E. cbn [fst snd length]. rewrite <- E, L, K. repeat split.
Qed.

Lemma main_loop_stops_at_quit_witness :
  length (fst (main_loop ControllerTest.controller1Keys ControllerTest.controller2Keys
                 ([[mkEvent SDL_KEYDOWN SDLK_5]]
                    ++ [mkEvent SDL_KEYUP SDLK_ESCAPE; mkEvent SDL_KEYDOWN SDLK_s]
                    :: [[mkEvent SDL_KEYDOWN SDLK_a]])
                 keyStates_init true))
  = 2%nat.
Proof.
  refine (proj1 (proj2 (main_loop_stops_at_quit
                          ControllerTest.controller1Keys ControllerTest.controller2Keys
                          [[mkEvent SDL_KEYDOWN SDLK_5]]
                          [mkEvent SDL_KEYUP SDLK_ESCAPE; mkEvent SDL_KEYDOWN SDLK_s]
                          [[mkEvent SDL_KEYDOWN SDLK_a]] keyStates_init _ _))).
  - repeat constructor.
  - reflexivity.
Defined.

(** ** Display *)

Lemma bin_string_check_all :
  forallb (fun n => bin_string_check (Z.of_nat n)) (seq 0 256) = true.
Proof. vm_compute. reflexivity. Qed.

(** X10: the binary string shown for a register has eight characters,
    character [i] being ['1'] exactly when bit [7 - i] of the register is
    set, and read as a binary number, highest digit first, it gives the
    register back. *)
Theorem bin_string_round_trip (rawValue : Z) :
  0 <= rawValue < 256 ->
  bin_value (bin_string rawValue) = rawValue /\
  list_ascii_of_string (bin_string rawValue)
    = map (fun i : nat => if Z.testbit rawValue (7 - Z.of_nat i) then "1"%char else "0"%char)
        (seq 0 8).
Proof.
  intros Hv.
  pose proof bin_string_check_all as H. rewrite forallb_forall in H.
  specialize (H (Z.to_nat rawValue)).
  rewrite Z2Nat.id in H by lia.
  assert (Hin : In (Z.to_nat rawValue) (seq 0 256)) by (apply in_seq; lia).
  specialize (H Hin). unfold bin_string_check in H.
  apply andb_prop in H. destruct H as [H1 H2].
  split; [apply Z.eqb_eq; exact H1|].
  destruct (List.list_eq_dec ascii_dec _ _) as [E|]; [exact E|discriminate].
Qed.

Lemma bin_string_round_trip_witness : bin_value (bin_string 17) = 17.
Proof.
  refine (proj1 (bin_string_round_trip 17 _)). lia.
Defined.

Lemma button_color_register keyState keyMap i :
  length keyState = NUM_KEYS -> map value keyMap = nes_flags -> (i < NUM_KEYS)%nat ->
  button_color (register_of keyState keyMap) (value_at keyMap i)
  = if pressed_at keyState i then green else red.
Proof.
  intros Hs Hflags Hi.
  do 9 (destruct keyState as [|? keyState]; try discriminate Hs).
  do 9 (destruct keyMap as [|? keyMap]; try discriminate Hflags).
  injection Hflags as H0 H1 H2 H3 H4 H5 H6 H7.
  unfold register_of, register_step, NUM_KEYS, for_range, pressed_at, value_at in *.
  do 8 (destruct i as [|i];
        [cbn [lookup list_lookup]; rewrite H0, H1, H2, H3, H4, H5, H6, H7;
         repeat match goal with b : bool |- _ => destruct b end; reflexivity|]).
  lia.
Qed.

Lemma state_text_of_pressed (pressed : bool) :
  state_text (if pressed then green else red)
  = if pressed then "Pressed"%string else "Released"%string.
Proof. destruct pressed; reflexivity. Qed.

Lemma flat_map_map {A B C : Type} (f : B -> list C) (g : A -> B) (l : list A) :
  flat_map f (map g l) = flat_map (fun x => f (g x)) l.
Proof.
  induction l as [|x l IH]; [reflexivity|]. cbn [map flat_map]. rewrite IH. reflexivity.
Qed.

(** The loop over the buttons from index [lo] and height [y]. *)
Lemma render_buttons_loop c1 c2 rawValue1 rawValue2 n : forall lo calls y,
  for_range lo n (render_buttons_body c1 c2 rawValue1 rawValue2) (calls, y)
  = (calls ++ flat_map (fun k => button_lines c1 c2 rawValue1 rawValue2 (lo + k)
                                    (y + 20 * Z.of_nat k)) (seq 0 n),
     y + 20 * Z.of_nat n).
Proof.
  induction n as [|n IH]; intros lo calls y.
  - cbn [for_range seq flat_map]. rewrite app_nil_r. f_equal. lia.
  - cbn [for_range]. unfold render_buttons_body at 2. cbn [fst snd].
    rewrite IH. cbn [seq flat_map]. rewrite <- seq_shift, flat_map_map, <- app_assoc.
    f_equal; [|lia]. f_equal. rewrite Nat.add_0_r.
    replace (y + 20 * Z.of_nat 0) with y by lia. f_equal.
    apply flat_map_ext. intros k.
    replace (S lo + k)%nat with (lo + S k)%nat by lia.
    replace (y + 20 + 20 * Z.of_nat k) with (y + 20 * Z.of_nat (S k)) by lia.
    reflexivity.
Qed.

(** The calls of the loop over the buttons, by their place in the list. *)
Lemma renderDetailedInfo_button c1 c2 rawValue1 rawValue2 i :
  (i < NUM_KEYS)%nat ->
  renderDetailedInfo c1 c2 rawValue1 rawValue2 !! (6 + 2 * i)%nat
    = Some (RenderText
              (snprintf_label 64 "C1 - " (label_at c1 i)
                 (state_text (button_color rawValue1 (value_at c1 i))))
              10 (60 + 20 * Z.of_nat i) (button_color rawValue1 (value_at c1 i))) /\
  renderDetailedInfo c1 c2 rawValue1 rawValue2 !! (7 + 2 * i)%nat
    = Some (RenderText
              (snprintf_label 64 "C2 - " (label_at c2 i)
                 (state_text (button_color rawValue2 (value_at c2 i))))
              (WIDTH / 2) (60 + 20 * Z.of_nat i) (button_color rawValue2 (value_at c2 i))).
Proof.
  intros Hi.
  unfold renderDetailedInfo, render_controllers. rewrite render_buttons_loop.
  unfold NUM_KEYS in *. cbn [fst seq flat_map]. unfold button_lines. cbn [app].
  do 8 (destruct i as [|i]; [split; reflexivity|]).
  lia.
Qed.

(** X11: what a frame shows is what is held down: with 8-entry arrays and
    the eight button flags in the tables, the line of button [i] of each
    controller, in its own column at height [60 + 20 * i], is green and
    reads "Pressed" when entry [i] of that controller's array is set, and
    is red and reads "Released" otherwise. *)
Theorem display_shows_pressed_buttons
    (c1 c2 : list KeyMapping) (mem : KeyStates) (i : nat) :
  length (keyState1 mem) = NUM_KEYS -> length (keyState2 mem) = NUM_KEYS ->
  map value c1 = nes_flags -> map value c2 = nes_flags ->
  (i < NUM_KEYS)%nat ->
  renderDetailedInfo c1 c2
    (fst (getControllerState Ptr_keyState1 c1 mem))
    (fst (getControllerState Ptr_keyState2 c2 mem)) !! (6 + 2 * i)%nat
  = Some (RenderText
            (snprintf_label 64 "C1 - " (label_at c1 i)
               (if pressed_at (keyState1 mem) i then "Pressed" else "Released"))
            10 (60 + 20 * Z.of_nat i)
            (if pressed_at (keyState1 mem) i then green else red)) /\
  renderDetailedInfo c1 c2
    (fst (getControllerState Ptr_keyState1 c1 mem))
    (fst (getControllerState Ptr_keyState2 c2 mem)) !! (7 + 2 * i)%nat
  = Some (RenderText
            (snprintf_label 64 "C2 - " (label_at c2 i)
               (if pressed_at (keyState2 mem) i then "Pressed" else "Released"))
            360 (60 + 20 * Z.of_nat i)
            (if pressed_at (keyState2 mem) i then green else red)).
Proof.
  intros Hs1 Hs2 Hf1 Hf2 Hi.
  rewrite !getControllerState_run. cbn [fst deref].
  destruct (renderDetailedInfo_button c1 c2
              (register_of (keyState1 mem) c1) (register_of (keyState2 mem) c2) i Hi)
    as [-> ->].
  rewrite !button_color_register, !state_text_of_pressed by assumption.
  split; reflexivity.
Qed.

Lemma display_shows_pressed_buttons_witness :
  renderDetailedInfo ControllerTest.controller1Keys ControllerTest.controller2Keys
    (fst (getControllerState Ptr_keyState1 ControllerTest.controller1Keys
            (up_and_a_pressed ControllerTest.setKeyState)))
    (fst (getControllerState Ptr_keyState2 ControllerTest.controller2Keys
            (up_and_a_pressed ControllerTest.setKeyState))) !! (6 + 2 * 4)%nat
  = Some (RenderText
            (snprintf_label 64 "C1 - " (label_at ControllerTest.controller1Keys 4)
               (if pressed_at (keyState1 (up_and_a_pressed ControllerTest.setKeyState)) 4
                then "Pressed" else "Released"))
            10 (60 + 20 * Z.of_nat 4)
            (if pressed_at (keyState1 (up_and_a_pressed ControllerTest.setKeyState)) 4
             then green else red)).
Proof.
  refine (proj1 (display_shows_pressed_buttons
                   ControllerTest.controller1Keys ControllerTest.controller2Keys
                   (up_and_a_pressed ControllerTest.setKeyState) 4%nat _ _ _ _ _)).
  - vm_compute. reflexivity.
  - vm_compute. reflexivity.
  - reflexivity.
  - reflexivity.
  - unfold NUM_KEYS. lia.
Defined.

Lemma string_length_append (s1 s2 : string) :
  String.length (s1 ++ s2)%string = (String.length s1 + String.length s2)%nat.
Proof. induction s1 as [|c s1 IH]; simpl; [reflexivity|rewrite IH; reflexivity]. Qed.

Lemma substring_whole (s : string) : forall n,
  (String.length s <= n)%nat -> substring 0 n s = s.
Proof.
  induction s as [|c s IH]; intros n Hn.
  - destruct n; reflexivity.
  - destruct n as [|n]; simpl in *; [lia|]. rewrite IH by lia. reflexivity.
Qed.

Lemma substring_length_le (s : string) : forall n,
  (String.length (substring 0 n s) <= n)%nat.
Proof.
  induction s as [|c s IH]; intros n.
  - destruct n; simpl; lia.
  - destruct n as [|n]; simpl; [lia|]. specialize (IH n). lia.
Qed.

(** X12: a button line whose binding label has at most 48 characters is
    shown in full by [snprintf] into the 64-byte buffer, for either
    controller and either state; every label of the four tables of the two
    programs is that short, so no button line of either program is cut. *)
Theorem button_label_fits (keyLabel : string) (c : SDL_Color.t) :
  (String.length keyLabel <= 48)%nat ->
  snprintf_label 64 "C1 - " keyLabel (state_text c)
    = ("C1 - " ++ keyLabel ++ ": " ++ state_text c)%string /\
  snprintf_label 64 "C2 - " keyLabel (state_text c)
    = ("C2 - " ++ keyLabel ++ ": " ++ state_text c)%string /\
  Forall (fun km => (String.length (label km) <= 48)%nat)
    (ControllerTest.controller1Keys ++ ControllerTest.controller2Keys
       ++ ApuTest.controller1Keys ++ ApuTest.controller2Keys).
Proof.
  intros Hlen.
  assert (Hst : (String.length (state_text c) <= 8)%nat).
  { unfold state_text. destruct (SDL_Color.r c =? 0); simpl; lia. }
  unfold snprintf_label. repeat split.
  - apply substring_whole. rewrite !string_length_append. simpl. lia.
  - apply substring_whole. rewrite !string_length_append. simpl. lia.
  - repeat (apply Forall_cons_2; [simpl; lia|]). constructor.
Qed.

Lemma button_label_fits_witness :
  snprintf_label 64 "C1 - " "Select" (state_text red)
    = ("C1 - " ++ "Select" ++ ": " ++ state_text red)%string /\
  snprintf_label 64 "C2 - " "Select" (state_text red)
    = ("C2 - " ++ "Select" ++ ": " ++ state_text red)%string.
Proof.
  refine (let H := button_label_fits "Select" red _ in conj (proj1 H) (proj1 (proj2 H))).
  simpl. lia.
Defined.

(** ** Square-wave synthesizer *)

(** X13: the length in bytes is halved rounding down, for every [int]: an
    odd last byte is left out, and a negative length gives a negative
    count, for which the loop does not run. *)
Theorem numSamples_of_int (len : Z) :
  - 2 ^ 31 <= len < 2 ^ 31 ->
  numSamples_of len = len / 2 /\
  (len <= 1 -> Z.to_nat (numSamples_of len) = 0%nat).
Proof.
  intros Hlen.
  assert (E : numSamples_of len = len / 2).
  { unfold numSamples_of, to_int32, to_size_t.
    change (2 ^ 31) with 2147483648 in *. change (2 ^ 32) with 4294967296.
    change (2 ^ 64) with 18446744073709551616.
    Z.div_mod_to_equations. lia. }
  split; [exact E|].
  intros Hle. rewrite E.
  assert (len / 2 <= 0) by (Z.div_mod_to_equations; lia). lia.
Qed.

Lemma numSamples_of_int_witness : numSamples_of 4097 = 4097 / 2.
Proof.
  refine (proj1 (numSamples_of_int 4097 _)). lia.
Defined.

Lemma run_callbacks_reachable pow requests : forall st,
  reachable pow st -> reachable pow (run_callbacks pow requests st).
Proof.
  induction requests as [|rq requests IH]; intros st Hst; [exact Hst|].
  apply (IH (snd (squareWaveCallback pow (fst rq) (snd rq) st))).
  apply reachable_callback. exact Hst.
Qed.

Lemma scaledAmplitude_bounds v :
  0 <= v < MAX_SEMITONE_STEPS ->
  0 <= AMPLITUDE * v / (MAX_SEMITONE_STEPS - 1) <= AMPLITUDE.
Proof.
  unfold MAX_SEMITONE_STEPS, AMPLITUDE. intros Hv.
  Z.div_mod_to_equations. lia.
Qed.

(** X14: between callbacks the volume step keeps every sample a callback
    writes within [-AMPLITUDE, AMPLITUDE], which the [int16_t] of the
    buffer holds without wrapping. *)
Theorem samples_within_amplitude
    (pow : float -> float -> float) (stream : list Z) (len : Z) (st : AudioState) (i : nat) :
  reachable pow st ->
  (Z.to_nat (numSamples_of len) <= length stream)%nat ->
  (i < Z.to_nat (numSamples_of len))%nat ->
  exists sample,
    fst (squareWaveCallback pow stream len st) !! i = Some sample /\
    - AMPLITUDE <= sample <= AMPLITUDE.
Proof.
  intros Hst Hlen Hi.
  destruct (reachable_counters pow st Hst) as [Hr He].
  destruct (scaledAmplitude_in_range (volumeLevel st) ltac:(lia)) as (Hsa & Hp & Hn).
  pose proof (scaledAmplitude_bounds (volumeLevel st) ltac:(lia)) as Hb.
  rewrite squareWaveCallback_sample by assumption.
  eexists. split; [reflexivity|].
  unfold sample_of. rewrite Hsa.
  destruct (_ <? 0.5)%float; [rewrite Hp|rewrite Hn]; lia.
Qed.

Lemma samples_within_amplitude_witness :
  fst (squareWaveCallback pow_chord (replicate 64 0) 128
         (run_callbacks pow_chord (replicate 15 ([0; 0], 4)) audio_init)) !! 0%nat
    = Some 28000 /\
  fst (squareWaveCallback pow_chord (replicate 64 0) 128
         (run_callbacks pow_chord (replicate 15 ([0; 0], 4)) audio_init)) !! 10%nat
    = Some (- 28000) /\
  exists sample,
    fst (squareWaveCallback pow_chord (replicate 64 0) 128
           (run_callbacks pow_chord (replicate 15 ([0; 0], 4)) audio_init)) !! 10%nat
      = Some sample /\
    - AMPLITUDE <= sample <= AMPLITUDE.
Proof.
  split; [vm_compute; reflexivity|]. split; [vm_compute; reflexivity|].
  apply (samples_within_amplitude pow_chord (replicate 64 0) 128
           (run_callbacks pow_chord (replicate 15 ([0; 0], 4)) audio_init) 10%nat).
  - apply run_callbacks_reachable, reachable_init.
  - vm_compute. lia.
  - vm_compute. lia.
Defined.

(** X15: at volume step 0, the step of the first callback and of every
    sixteenth after it, every sample written is 0, whatever the phase. *)
Theorem silent_at_volume_zero
    (pow : float -> float -> float) (stream : list Z) (len : Z) (st : AudioState) (i : nat) :
  volumeLevel st = 0 ->
  (Z.to_nat (numSamples_of len) <= length stream)%nat ->
  (i < Z.to_nat (numSamples_of len))%nat ->
  fst (squareWaveCallback pow stream len st) !! i = Some 0.
Proof.
  intros Hv Hlen Hi.
  rewrite squareWaveCallback_sample by assumption.
  rewrite Hv. unfold sample_of. destruct (_ <? 0.5)%float; reflexivity.
Qed.

Lemma silent_at_volume_zero_witness :
  fst (squareWaveCallback pow_chord [7; 7; 7] 6 audio_init) !! 2%nat = Some 0.
Proof.
  apply (silent_at_volume_zero pow_chord [7; 7; 7] 6 audio_init 2%nat).
  - reflexivity.
  - vm_compute. lia.
  - vm_compute. lia.
Defined.

(** X16: a callback writes the slots below [numSamples] only: the buffer
    keeps its length and every slot from [numSamples] on keeps its value. *)
Theorem callback_leaves_rest_of_buffer
    (pow : float -> float -> float) (stream : list Z) (len : Z) (st : AudioState) (i : nat) :
  (Z.to_nat (numSamples_of len) <= i)%nat ->
  length (fst (squareWaveCallback pow stream len st)) = length stream /\
  fst (squareWaveCallback pow stream len st) !! i = stream !! i.
Proof.
  intros Hi.
  destruct (squareWaveCallback_fields pow stream len st) as (-> & _).
  destruct (sample_loop_spec (scaledAmplitude_of (volumeLevel st))
              (phaseInc_of (frequency_of pow (semitoneStep st)))
              (Z.to_nat (numSamples_of len)) 0%nat stream (phase st)) as (_ & Hl & Hbuf).
  split; [exact Hl|].
  rewrite Hbuf.
  assert (Hw : in_window 0 (Z.to_nat (numSamples_of len)) i = false).
  { unfold in_window. apply andb_false_intro2. apply Nat.ltb_ge. lia. }
  rewrite Hw. reflexivity.
Qed.

Lemma callback_leaves_rest_of_buffer_witness :
  fst (squareWaveCallback pow_chord [7; 8; 9] 4 (mkAudioState 0.75 0 3 3)) !! 2%nat
  = [7; 8; 9] !! 2%nat.
Proof.
  refine (proj2 (callback_leaves_rest_of_buffer pow_chord [7; 8; 9] 4
                   (mkAudioState 0.75 0 3 3) 2%nat _)).
  vm_compute. lia.
Defined.

(** X17: a request of less than one sample writes nothing and leaves the
    phase as it was, and the sweep still advances: both steps move on. *)
Theorem empty_request_still_advances
    (pow : float -> float -> float) (stream : list Z) (len : Z) (st : AudioState) :
  numSamples_of len <= 0 ->
  fst (squareWaveCallback pow stream len st) = stream /\
  phase (snd (squareWaveCallback pow stream len st)) = phase st /\
  semitoneStep (snd (squareWaveCallback pow stream len st))
    = Z.rem (semitoneStep st + 1) MAX_SEMITONE_STEPS /\
  volumeLevel (snd (squareWaveCallback pow stream len st))
    = Z.rem (volumeLevel st + 1) MAX_SEMITONE_STEPS.
Proof.
  intros Hn.
  destruct (squareWaveCallback_fields pow stream len st) as (-> & -> & _ & -> & ->).
  replace (Z.to_nat (numSamples_of len)) with 0%nat by lia.
  repeat split.
Qed.

Lemma empty_request_still_advances_witness :
  fst (squareWaveCallback pow_chord [7; 8] 1 (mkAudioState 0.75 0 3 3)) = [7; 8].
Proof.
  refine (proj1 (empty_request_still_advances pow_chord [7; 8] 1
                   (mkAudioState 0.75 0 3 3) _)).
  vm_compute. discriminate.
Defined.

(** X18: the amplitude of a buffer grows with the volume step, from 0 at
    step 0 to [AMPLITUDE] at the last step. *)
Theorem amplitude_ramp (v w : Z) :
  0 <= v <= w -> w < MAX_SEMITONE_STEPS ->
  0 <= scaledAmplitude_of v <= scaledAmplitude_of w /\
  scaledAmplitude_of w <= scaledAmplitude_of (MAX_SEMITONE_STEPS - 1) /\
  scaledAmplitude_of 0 = 0 /\
  scaledAmplitude_of (MAX_SEMITONE_STEPS - 1) = AMPLITUDE.
Proof.
  intros Hvw Hw.
  destruct (scaledAmplitude_in_range v ltac:(lia)) as (-> & _).
  destruct (scaledAmplitude_in_range w ltac:(lia)) as (-> & _).
  replace (scaledAmplitude_of (MAX_SEMITONE_STEPS - 1)) with AMPLITUDE
    by (vm_compute; reflexivity).
  replace (scaledAmplitude_of 0) with 0 by (vm_compute; reflexivity).
  unfold MAX_SEMITONE_STEPS, AMPLITUDE in *.
  repeat split; try reflexivity; Z.div_mod_to_equations; lia.
Qed.

Lemma amplitude_ramp_witness :
  0 <= scaledAmplitude_of 3 <= scaledAmplitude_of 7.
Proof.
  refine (proj1 (amplitude_ramp 3 7 _ _)).
  - lia.
  - unfold MAX_SEMITONE_STEPS. lia.
Defined.

Lemma run_callbacks_cons pow rq requests st :
  run_callbacks pow (rq :: requests) st
  = run_callbacks pow requests (snd (squareWaveCallback pow (fst rq) (snd rq) st)).
Proof. reflexivity. Qed.

Lemma run_callbacks_from pow requests : forall st,
  0 <= semitoneStep st < MAX_SEMITONE_STEPS ->
  0 <= volumeLevel st < MAX_SEMITONE_STEPS ->
  0 <= waveTimer st < 2 ^ 32 ->
  semitoneStep (run_callbacks pow requests st)
    = (semitoneStep st + Z.of_nat (length requests)) mod MAX_SEMITONE_STEPS /\
  volumeLevel (run_callbacks pow requests st)
    = (volumeLevel st + Z.of_nat (length requests)) mod MAX_SEMITONE_STEPS /\
  waveTimer (run_callbacks pow requests st)
    = (waveTimer st + foldr Z.add 0 (map (fun rq => numSamples_of (snd rq)) requests))
        mod 2 ^ 32.
Proof.
  unfold MAX_SEMITONE_STEPS.
  induction requests as [|rq requests IH]; intros st Hs Hv Hw.
  - cbn [run_callbacks foldl length map foldr Z.of_nat].
    rewrite !Z.add_0_r, !Z.mod_small by lia. repeat split.
  - rewrite run_callbacks_cons.
    destruct (squareWaveCallback_fields pow (fst rq) (snd rq) st) as (_ & _ & Tw & Tv & Ts).
    cbv zeta in Tw, Tv, Ts. unfold MAX_SEMITONE_STEPS, to_uint32 in *.
    rewrite Z.rem_mod_nonneg in Tv, Ts by lia.
    destruct (IH (snd (squareWaveCallback pow (fst rq) (snd rq) st))) as (-> & -> & ->).
    + rewrite Ts. apply Z.mod_pos_bound. lia.
    + rewrite Tv. apply Z.mod_pos_bound. lia.
    + rewrite Tw. apply Z.mod_pos_bound. lia.
    + rewrite Ts, Tv, Tw. cbn [length map foldr].
      rewrite !Zplus_mod_idemp_l. rewrite Nat2Z.inj_succ.
      repeat split; f_equal; lia.
Qed.

(** X19: after any number of callbacks from the start of the program the
    pitch step and the volume step are both the number of callbacks modulo
    [MAX_SEMITONE_STEPS], whatever the lengths requested, and the sample
    counter is the total of the sample counts modulo [2^32]. *)
Theorem sweep_after_callbacks
    (pow : float -> float -> float) (requests : list (list Z * Z)) :
  semitoneStep (run_callbacks pow requests audio_init)
    = Z.of_nat (length requests) mod MAX_SEMITONE_STEPS /\
  volumeLevel (run_callbacks pow requests audio_init)
    = Z.of_nat (length requests) mod MAX_SEMITONE_STEPS /\
  waveTimer (run_callbacks pow requests audio_init)
    = foldr Z.add 0 (map (fun rq => numSamples_of (snd rq)) requests) mod 2 ^ 32.
Proof.
  destruct (run_callbacks_from pow requests audio_init) as (-> & -> & ->);
    try (cbn; unfold MAX_SEMITONE_STEPS; lia).
  cbn [semitoneStep volumeLevel waveTimer audio_init]. rewrite !Z.add_0_l. repeat split.
Qed.

(** X23: with a [pow] that, on the sixteen steps of the pitch ladder, is
    not negative and keeps [frequency / SAMPLE_RATE] below 1.0, the phase
    is in [0,1) between any two callbacks, from the start of the program
    on, and at every sample of the callback that follows. *)
Theorem phase_in_unit_interval_always (pow : float -> float -> float) (st : AudioState) :
  (forall step, 0 <= step < MAX_SEMITONE_STEPS ->
     (0 <=? pow 2 (double_of_int step / 12))%float = true /\
     (phaseInc_of (frequency_of pow step) <? 1)%float = true) ->
  reachable pow st ->
  in_unit_interval (phase st) /\
  forall i,
    in_unit_interval (phase_at (phaseInc_of (frequency_of pow (semitoneStep st))) (phase st) i).
Proof.
  intros Hpow Hst.
  assert (Hinc : forall step, 0 <= step < MAX_SEMITONE_STEPS ->
                   in_unit_interval (phaseInc_of (frequency_of pow step))).
  { intros step Hs. destruct (Hpow step Hs) as [Hn Hlt].
    split; [apply phaseInc_nonneg; exact Hn|exact Hlt]. }
  pose proof (reachable_phase_unit pow Hinc st Hst) as Hph.
  split; [exact Hph|].
  intros i. apply phase_at_unit; [exact Hph|].
  apply Hinc. apply (reachable_counters pow st Hst).
Qed.

Lemma pow_chord_ladder step :
  0 <= step < MAX_SEMITONE_STEPS ->
  (0 <=? pow_chord 2 (double_of_int step / 12))%float = true /\
  (phaseInc_of (frequency_of pow_chord step) <? 1)%float = true.
Proof.
  unfold MAX_SEMITONE_STEPS. intros Hs.
  assert (Hcases : step = 0 \/ step = 1 \/ step = 2 \/ step = 3 \/ step = 4 \/ step = 5 \/
                   step = 6 \/ step = 7 \/ step = 8 \/ step = 9 \/ step = 10 \/ step = 11 \/
                   step = 12 \/ step = 13 \/ step = 14 \/ step = 15) by lia.
  repeat (destruct Hcases as [->|Hcases]); [..|subst step];
    split; vm_compute; reflexivity.
Defined.

Lemma phase_in_unit_interval_always_witness :
  in_unit_interval
    (phase (snd (squareWaveCallback pow_chord [0; 0; 0] 6
                   (snd (squareWaveCallback pow_chord [0; 0] 4 audio_init))))).
Proof.
  refine (proj1 (phase_in_unit_interval_always pow_chord _ pow_chord_ladder _)).
  apply reachable_callback, reachable_callback, reachable_init.
Defined.

(** ** The binding tables of the two programs *)

Lemma handleEvents_length c1 c2 queue : forall s,
  length (keyState1 (fst (handleEvents c1 c2 queue s))) = length (keyState1 (fst s)) /\
  length (keyState2 (fst (handleEvents c1 c2 queue s))) = length (keyState2 (fst s)).
Proof.
  induction queue as [|e queue IH]; intros [mem running]; [split; reflexivity|].
  rewrite handleEvents_cons.
  destruct (IH (handleEvents_body c1 c2 e (mem, running))) as [-> ->].
  rewrite handleEvents_body_keys. cbn [fst].
  destruct (is_key_event e); [apply setKeyState_length|split; reflexivity].
Qed.

(** X20: in the keyboard controller test the keys [5] and [1] are bound to
    Select and Start of both controllers, so through any events, from the
    start of the program, the Select entries of the two arrays are equal
    and so are the Start entries: bits 2 and 3 of the two registers always
    agree. *)
Theorem controller_test_shares_select_start (events : list SDL_Event) (running : bool) :
  let mem :=
    fst (handleEvents ControllerTest.controller1Keys ControllerTest.controller2Keys
           events (keyStates_init, running)) in
  pressed_at (keyState1 mem) 2 = pressed_at (keyState2 mem) 2 /\
  pressed_at (keyState1 mem) 3 = pressed_at (keyState2 mem) 3 /\
  Z.testbit (fst (getControllerState Ptr_keyState1 ControllerTest.controller1Keys mem)) 2
    = Z.testbit (fst (getControllerState Ptr_keyState2 ControllerTest.controller2Keys mem)) 2 /\
  Z.testbit (fst (getControllerState Ptr_keyState1 ControllerTest.controller1Keys mem)) 3
    = Z.testbit (fst (getControllerState Ptr_keyState2 ControllerTest.controller2Keys mem)) 3.
Proof.
  cbn zeta.
  destruct (handleEvents_length ControllerTest.controller1Keys
              ControllerTest.controller2Keys events (keyStates_init, running))
    as [L1 L2].
  cbn [fst keyStates_init keyState1 keyState2] in L1, L2. rewrite length_replicate in L1, L2.
  assert (Inv : forall queue s,
             (keyState1 (fst s) !! 2%nat = keyState2 (fst s) !! 2%nat /\
              keyState1 (fst s) !! 3%nat = keyState2 (fst s) !! 3%nat) ->
             let s' := handleEvents ControllerTest.controller1Keys
                         ControllerTest.controller2Keys queue s in
             keyState1 (fst s') !! 2%nat = keyState2 (fst s') !! 2%nat /\
             keyState1 (fst s') !! 3%nat = keyState2 (fst s') !! 3%nat).
  { induction queue as [|e queue IH]; intros [m r] Hm; [exact Hm|].
    cbn zeta. rewrite handleEvents_cons. apply IH.
    rewrite handleEvents_body_keys. cbn [fst] in *.
    destruct (is_key_event e); [|exact Hm].
    destruct Hm as [H2 H3].
    rewrite !(proj1 (setKeyState_lookup _ _ _ _ _ _)),
            !(proj2 (setKeyState_lookup _ _ _ _ _ _)), H2, H3.
    split; reflexivity. }
  specialize (Inv events (keyStates_init, running)
                (conj eq_refl eq_refl)).
  cbn zeta in Inv. destruct Inv as [I2 I3].
  rewrite !getControllerState_run. cbn [fst deref].
  change 2 with (Z.of_nat 2). change 3 with (Z.of_nat 3).
  rewrite !register_of_testbit by (reflexivity || assumption || (unfold NUM_KEYS; lia)).
  unfold pressed_at. rewrite I2, I3. repeat split.
Qed.

Lemma apu_test_keys_disjoint code :
  code ∈ keys_of ApuTest.controller1Keys -> code ∉ keys_of ApuTest.controller2Keys.
Proof.
  intros H1 H2.
  assert (Hnd : NoDup (keys_of ApuTest.controller1Keys ++ keys_of ApuTest.controller2Keys))
    by (apply (bool_decide_unpack _); vm_compute; reflexivity).
  apply NoDup_app in Hnd. destruct Hnd as (_ & Hd & _). exact (Hd code H1 H2).
Qed.

(** X21: in the controller and APU test no key belongs to both
    controllers: every key transition leaves the array, and so the
    register, of at least one controller as it was. *)
Theorem apu_test_controllers_independent (code : Z) (pressed : bool) (mem : KeyStates) :
  (keyState1 (snd (ApuTest.setKeyState code pressed mem)) = keyState1 mem /\
   fst (getControllerState Ptr_keyState1 ApuTest.controller1Keys
          (snd (ApuTest.setKeyState code pressed mem)))
     = fst (getControllerState Ptr_keyState1 ApuTest.controller1Keys mem)) \/
  (keyState2 (snd (ApuTest.setKeyState code pressed mem)) = keyState2 mem /\
   fst (getControllerState Ptr_keyState2 ApuTest.controller2Keys
          (snd (ApuTest.setKeyState code pressed mem)))
     = fst (getControllerState Ptr_keyState2 ApuTest.controller2Keys mem)).
Proof.
  unfold ApuTest.setKeyState. rewrite !getControllerState_run. cbn [fst deref].
  destruct (decide (code ∈ keys_of ApuTest.controller1Keys)) as [Hin|Hout].
  - right. rewrite setKeyState_unbound2 by (apply apu_test_keys_disjoint; exact Hin).
    split; reflexivity.
  - left. rewrite setKeyState_unbound1 by exact Hout. split; reflexivity.
Qed.

(** X22: the escape key is bound to no button in either program: an event
    of it, down or up, ends the loop and leaves the key memory as it
    was. *)
Theorem escape_changes_no_register (pressed : bool) (mem : KeyStates) (running : bool) :
  handleEvents ControllerTest.controller1Keys ControllerTest.controller2Keys
    [mkEvent (if pressed then SDL_KEYDOWN else SDL_KEYUP) SDLK_ESCAPE] (mem, running)
    = (mem, false) /\
  handleEvents ApuTest.controller1Keys ApuTest.controller2Keys
    [mkEvent (if pressed then SDL_KEYDOWN else SDL_KEYUP) SDLK_ESCAPE] (mem, running)
    = (mem, false).
Proof.
  assert (N : forall c1 c2,
             SDLK_ESCAPE ∉ keys_of c1 -> SDLK_ESCAPE ∉ keys_of c2 ->
             handleEvents c1 c2
               [mkEvent (if pressed then SDL_KEYDOWN else SDL_KEYUP) SDLK_ESCAPE]
               (mem, running) = (mem, false)).
  { intros c1 c2 N1 N2.
    pose proof (setKeyState_unbound1 c1 c2 SDLK_ESCAPE pressed mem N1) as U1.
    pose proof (setKeyState_unbound2 c1 c2 SDLK_ESCAPE pressed mem N2) as U2.
    pose proof (KeyStates_eq _ _ U1 U2) as U.
    destruct pressed; cbn [handleEvents foldl]; unfold handleEvents_body;
      cbn [type sym fst snd];
      [change (SDL_KEYDOWN =? SDL_QUIT) with false;
       change (SDL_KEYDOWN =? SDL_KEYDOWN) with true
      |change (SDL_KEYUP =? SDL_QUIT) with false;
       change (SDL_KEYUP =? SDL_KEYDOWN) with false;
       change (SDL_KEYUP =? SDL_KEYUP) with true];
      cbn [orb]; cbv iota zeta; rewrite U, Z.eqb_refl; reflexivity. }
  split; apply N; apply (bool_decide_unpack _); vm_compute; reflexivity.
Qed.
